(** * enricher: the website text-mining pipeline of [main.py]

    A shallow embedding of the helpers of [main.py] (phone and URL
    normalisation, the sanitizer [strip_contact_and_cta], the offer
    compressor [compress_to_offer], the sentence matcher [find_sentences]
    and the crawler [scrape_site_bundle]) together with the part of
    Python's [re] module those helpers rely on.

    Python strings are sequences of Unicode code points; a code point is
    an [N].  The regular expressions of the program are backtracking
    regular expressions with greedy quantifiers: the matcher below returns
    every way a pattern can match at a position, in the order in which
    the backtracking engine of [re] tries them, so that the head of the
    list is the match [re] reports. *)

From Stdlib Require Import NArith ZArith Ascii String List Bool Lia.
From stdpp Require Import base option list strings gmap.
From stdpp Require Import sorting.

Local Open Scope nat_scope.

(** ** Characters and strings *)

Abbreviation pystr := (list N).

(** An ASCII literal of the development as a Python string. Only ASCII
    literals are written this way; other code points are given by number. *)
Definition ch (a : ascii) : N := N_of_ascii a.
Definition py (s : string) : list N := map N_of_ascii (list_ascii_of_string s).

Definition BULLET : N := 8226%N.      (* U+2022, the bullet of [\|\•] *)
Definition N_TILDE : N := 241%N.      (* U+00F1, n with tilde *)

Definition in_range (lo hi c : N) : bool := ((lo <=? c) && (c <=? hi))%N.

(** [str.isspace] for one character, which is also [\s] of a [str]
    pattern: the characters CPython lists in [_PyUnicode_IsWhitespace]. *)
Definition is_space (c : N) : bool :=
  in_range 9 13 c || in_range 28 32 c || (c =? 133)%N || (c =? 160)%N
  || (c =? 5760)%N || in_range 8192 8202 c || (c =? 8232)%N || (c =? 8233)%N
  || (c =? 8239)%N || (c =? 8287)%N || (c =? 12288)%N.

Definition is_ascii (c : N) : bool := (c <? 128)%N.
Definition ascii_digit (c : N) : bool := in_range 48 57 c.
Definition ascii_upper (c : N) : bool := in_range 65 90 c.
Definition ascii_lower (c : N) : bool := in_range 97 122 c.
Definition ascii_tolower (c : N) : N := if ascii_upper c then (c + 32)%N else c.

(** The Unicode character database of the Python runtime is not part of
    the repository.  Its ASCII part is written out above; the rest is a
    parameter of the development, with the one fact about it that the
    program depends on (no white space character is a decimal digit). *)
Class UnicodeData := {
  ext_decimal : N -> bool;           (* [str.isdecimal] beyond ASCII *)
  ext_alnum : N -> bool;             (* [str.isalnum] beyond ASCII *)
  ext_caseless : N -> N -> bool;     (* IGNORECASE equivalence beyond ASCII *)
  ext_decimal_not_space : forall c, is_space c = true -> ext_decimal c = false
}.

(** The database in which no character beyond ASCII is a digit, a letter
    or a case variant: enough to run the program on ASCII text. *)
Definition ascii_tables : UnicodeData :=
  {| ext_decimal := fun _ => false;
     ext_alnum := fun _ => false;
     ext_caseless := fun _ _ => false;
     ext_decimal_not_space := fun _ _ => eq_refl |}.

(** ** Regular expressions: the fragment of [re] used by the program *)

(** Character sets: [\d], [\s], [\w], a listed character, complement
    ([\D], [\S]) and union ([[\s\-\.]]). *)
Inductive cset : Type :=
| CDigit
| CSpace
| CWord
| CChar (c : N)
| CNot (s : cset)
| CUnion (a b : cset).

(** Patterns.  Repetition is greedy and, as everywhere in the program,
    applied to a single character set ([\S+], [\s*], [\d{1,2}], [\w+]);
    [Opt] is the greedy [?] on a group.  Capturing parentheses are not
    represented: the program reads a group only in [compress_to_offer],
    where group 1 encloses the whole pattern. *)
Inductive regex : Type :=
| Eps
| Chr (c : N)
| In_ (s : cset)
| Seq (a b : regex)
| Alt (a b : regex)
| Opt (a : regex)
| Rep (s : cset) (lo : nat) (hi : option nat)
| WordB                          (* \b *)
| Eos                            (* $ *)
| Behind (s : cset).             (* (?<=[...]), one character wide *)

Definition seqs (rs : list regex) : regex := foldr Seq Eps rs.
Definition lit (s : string) : regex := seqs (map Chr (py s)).
Definition plus (s : cset) : regex := Rep s 1 None.
Definition star (s : cset) : regex := Rep s 0 None.
Definition times (n : nat) (s : cset) : regex := Rep s n (Some n).

Section Engine.
Context {U : UnicodeData}.

Definition is_digit (c : N) : bool :=
  if is_ascii c then ascii_digit c else ext_decimal c.

(** [\w]: alphanumeric or underscore. *)
Definition is_word (c : N) : bool :=
  if is_ascii c
  then ascii_digit c || ascii_upper c || ascii_lower c || (c =? 95)%N
  else ext_alnum c.

(** A pattern character [l] against a text character [x]; [ic] is the
    IGNORECASE flag. *)
Definition chr_eq (ic : bool) (l x : N) : bool :=
  if ic
  then if is_ascii l && is_ascii x
       then (ascii_tolower l =? ascii_tolower x)%N
       else (l =? x)%N || ext_caseless l x
  else (l =? x)%N.

Fixpoint in_cset (ic : bool) (s : cset) (x : N) : bool :=
  match s with
  | CDigit => is_digit x
  | CSpace => is_space x
  | CWord => is_word x
  | CChar c => chr_eq ic c x
  | CNot s' => negb (in_cset ic s' x)
  | CUnion a b => in_cset ic a x || in_cset ic b x
  end.

(** Length of the longest prefix of [s] made of characters satisfying [p],
    at most [cap] characters when a cap is given. *)
Fixpoint span_len (p : N -> bool) (cap : option nat) (s : list N) : nat :=
  match cap, s with
  | Some 0, _ => 0
  | _, [] => 0
  | _, c :: s' => if p c then S (span_len p (pred <$> cap) s') else 0
  end.

(** [k; k-1; ...; lo], empty when [k < lo]: the lengths a greedy repetition
    tries, longest first. *)
Definition countdown (k lo : nat) : list nat := rev (seq lo (S k - lo)).

(** The character before position [n] of [s], [prev] being the character
    before [s] itself. *)
Definition prev_at (prev : option N) (s : list N) (n : nat) : option N :=
  match n with
  | 0 => prev
  | S k => s !! k
  end.

Definition word_before (prev : option N) : bool :=
  match prev with Some c => is_word c | None => false end.
Definition word_here (s : list N) : bool :=
  match s with c :: _ => is_word c | [] => false end.

(** [rmatch ic r prev s]: the lengths of the prefixes of [s] that [r]
    matches, in backtracking order; [prev] is the character that precedes
    [s] in the subject string (for [\b] and look-behind). *)
Fixpoint rmatch (ic : bool) (r : regex) (prev : option N) (s : list N) : list nat :=
  match r with
  | Eps => [0]
  | Chr c =>
      match s with
      | x :: _ => if chr_eq ic c x then [1] else []
      | [] => []
      end
  | In_ cs =>
      match s with
      | x :: _ => if in_cset ic cs x then [1] else []
      | [] => []
      end
  | Seq a b =>
      flat_map (fun n => map (Nat.add n) (rmatch ic b (prev_at prev s n) (drop n s)))
               (rmatch ic a prev s)
  | Alt a b => rmatch ic a prev s ++ rmatch ic b prev s
  | Opt a => rmatch ic a prev s ++ [0]
  | Rep cs lo hi => countdown (span_len (in_cset ic cs) hi s) lo
  | WordB => if xorb (word_before prev) (word_here s) then [0] else []
  | Eos =>
      match s with
      | [] => [0]
      | [c] => if (c =? 10)%N then [0] else []
      | _ => []
      end
  | Behind cs =>
      match prev with
      | Some c => if in_cset ic cs c then [0] else []
      | None => []
      end
  end.

(** The match the engine reports at a position, and the one it reports
    when an empty match is refused there (after an empty match, [re]
    looks again at the same position for a match that advances). *)
Definition first_match (l : list nat) : option nat := head l.
Definition first_advancing (l : list nat) : option nat :=
  head (List.filter (fun n => 0 <? n) l).

(** [re.search]: the leftmost position with a match, as (start, length). *)
Fixpoint search_from (ic : bool) (r : regex) (prev : option N) (s : list N)
    (i : nat) : option (nat * nat) :=
  match first_match (rmatch ic r prev s) with
  | Some n => Some (i, n)
  | None =>
      match s with
      | [] => None
      | c :: s' => search_from ic r (Some c) s' (S i)
      end
  end.

Definition re_search (ic : bool) (r : regex) (s : list N) : option (nat * nat) :=
  search_from ic r None s 0.

(** The text of a match, [m.group(0)]. *)
Definition group0 (s : list N) (m : nat * nat) : list N :=
  take (snd m) (drop (fst m) s).

(** [re.sub(r, repl, s)] for a replacement without group references:
    [skip] counts the characters of the current match still to be passed. *)
Fixpoint sub_scan (ic : bool) (r : regex) (repl : list N) (prev : option N)
    (s : list N) (skip : nat) {struct s} : list N :=
  match skip with
  | S k =>
      match s with
      | [] => []
      | c :: s' => sub_scan ic r repl (Some c) s' k
      end
  | 0 =>
      match first_match (rmatch ic r prev s) with
      | Some (S n) =>
          repl ++ match s with
                  | [] => []
                  | c :: s' => sub_scan ic r repl (Some c) s' n
                  end
      | Some 0 =>
          repl ++ match first_advancing (rmatch ic r prev s), s with
                  | Some n, c :: s' => repl ++ sub_scan ic r repl (Some c) s' (pred n)
                  | None, c :: s' => c :: sub_scan ic r repl (Some c) s' 0
                  | _, [] => []
                  end
      | None =>
          match s with
          | [] => []
          | c :: s' => c :: sub_scan ic r repl (Some c) s' 0
          end
      end
  end.

Definition re_sub (ic : bool) (r : regex) (repl s : list N) : list N :=
  sub_scan ic r repl None s 0.

(** [re.split(r, s)] for a pattern without capturing groups; [cur] is the
    piece being collected, in reverse. *)
Fixpoint split_scan (ic : bool) (r : regex) (prev : option N) (s : list N)
    (skip : nat) (cur : list N) {struct s} : list (list N) :=
  match skip with
  | S k =>
      match s with
      | [] => [rev cur]
      | c :: s' => split_scan ic r (Some c) s' k cur
      end
  | 0 =>
      match first_match (rmatch ic r prev s) with
      | Some (S n) =>
          rev cur :: match s with
                     | [] => [[]]
                     | c :: s' => split_scan ic r (Some c) s' n []
                     end
      | Some 0 =>
          match s with
          | [] => [rev cur; []]
          | c :: s' =>
              rev cur ::
              match first_advancing (rmatch ic r prev s) with
              | Some n => [] :: split_scan ic r (Some c) s' (pred n) []
              | None => split_scan ic r (Some c) s' 0 [c]
              end
          end
      | None =>
          match s with
          | [] => [rev cur]
          | c :: s' => split_scan ic r (Some c) s' 0 (c :: cur)
          end
      end
  end.

Definition re_split (ic : bool) (r : regex) (s : list N) : list (list N) :=
  split_scan ic r None s 0 [].

End Engine.

(** ** The helpers of [main.py] *)

Local Open Scope string_scope.
Local Open Scope list_scope.
Local Open Scope nat_scope.

Definition MAX_SITE_PAGES : nat := 4.
Definition MAX_OFFER_LEN : nat := 30.

(** "\bw\b" for a literal phrase w. *)
Definition word (w : string) : regex := seqs [WordB; lit w; WordB].

Definition CTA_PATTERNS : list regex :=
  map word
    ["call"; "text"; "email"; "message"; "contact";
     "book"; "schedule"; "appointment"; "get a quote"; "get quote";
     "request"; "click"; "tap"; "visit"; "order"; "buy";
     "apply now"; "chat"; "inquire"; "quote"].

(** "[\s\-\.]" *)
Definition PHONE_SEP : cset := CUnion CSpace (CUnion (CChar (ch "-")) (CChar (ch "."))).

(** PHONE_REGEX: an optional group 1, "\+?1?\s*", followed by group 2,
    "\(?\d{3}\)?[\s\-\.]?\d{3}[\s\-\.]?\d{4}". *)
Definition PHONE_REGEX : regex :=
  seqs [Opt (seqs [Opt (Chr (ch "+")); Opt (Chr (ch "1")); star CSpace]);
        seqs [Opt (Chr (ch "(")); times 3 CDigit; Opt (Chr (ch ")"));
              Opt (In_ PHONE_SEP); times 3 CDigit;
              Opt (In_ PHONE_SEP); times 4 CDigit]].

(** "(https?://\S+|www\.\S+)", compiled with IGNORECASE *)
Definition URL_REGEX : regex :=
  Alt (seqs [lit "http"; Opt (Chr (ch "s")); lit "://"; plus (CNot CSpace)])
      (seqs [lit "www."; plus (CNot CSpace)]).

Definition CANDIDATE_PATHS : list pystr :=
  map py [EmptyString; "specials"; "offers"; "deals"; "coupons"; "promotions";
          "financing"; "warranty"; "about"; "services"; "service"; "contact"].

Definition OFFER_PATTERNS : list regex :=
  [ seqs [WordB; Rep CDigit 1 (Some 2); Chr (ch "%"); star CSpace; lit "off"; WordB];
    word "discount"; word "coupon"; word "promo"; word "promotion";
    word "special"; word "deal"; word "save"; word "free";
    word "no money down"; word "starting at";
    seqs [WordB; Chr (ch "$"); star CSpace; plus CDigit; WordB];
    word "0%"; word "apr"; word "interest"; word "warranty" ].

Definition FINANCING_PATTERNS : list regex :=
  map word ["financing"; "monthly payments"; "0% interest"; "no interest";
            "deferred"; "pre-qualify"; "credit"].

Definition WARRANTY_PATTERNS : list regex :=
  map word ["warranty"; "lifetime"; "guarantee"; "workmanship"].

(** "espa(n|ñ)ol" *)
Definition ESPANOL : regex :=
  seqs [lit "espa"; Alt (Chr (ch "n")) (Chr N_TILDE); lit "ol"].

Definition SPANISH_PATTERNS : list regex :=
  [ seqs [WordB; lit "se habla "; ESPANOL; WordB];
    seqs [WordB; lit "hablamos "; ESPANOL; WordB];
    seqs [WordB; ESPANOL; WordB] ].

Definition INSURED_PATTERNS : list regex :=
  map word ["insured"; "fully insured"; "liability insured"].
Definition BONDED_PATTERNS : list regex :=
  map word ["bonded"; "licensed and bonded"].
Definition VIRTUAL_PATTERNS : list regex :=
  map word ["virtual"; "video consultation"; "virtual estimate"; "remote"].

(** The offer-shape patterns of [compress_to_offer], in the order of the
    source list.  Each is wholly enclosed in group 1. *)
Definition OFFER_SHAPES : list regex :=
  [ (* "(\b\d{1,2}%\s*off\b)" *)
    seqs [WordB; Rep CDigit 1 (Some 2); Chr (ch "%"); star CSpace; lit "off"; WordB];
    (* "(\b\$?\s*\d+\s*(?:off|discount)\b)" *)
    seqs [WordB; Opt (Chr (ch "$")); star CSpace; plus CDigit; star CSpace;
          Alt (lit "off") (lit "discount"); WordB];
    (* "(\bfree\s+\w+(?:\s+\w+)?\b)" *)
    seqs [WordB; lit "free"; plus CSpace; plus CWord;
          Opt (seqs [plus CSpace; plus CWord]); WordB];
    (* "(\b0%\s*(?:apr|interest)\b)" *)
    seqs [WordB; lit "0%"; star CSpace; Alt (lit "apr") (lit "interest"); WordB];
    (* "(\bfinancing\s+available\b)" *)
    seqs [WordB; lit "financing"; plus CSpace; lit "available"; WordB];
    (* "(\bno\s+money\s+down\b)" *)
    seqs [WordB; lit "no"; plus CSpace; lit "money"; plus CSpace; lit "down"; WordB];
    (* "(\blifetime\s+warranty\b)" *)
    seqs [WordB; lit "lifetime"; plus CSpace; lit "warranty"; WordB];
    (* "(\b\d+\s*(?:year|yr)\s*warranty\b)" *)
    seqs [WordB; plus CDigit; star CSpace; Alt (lit "year") (lit "yr");
          star CSpace; lit "warranty"; WordB];
    (* "(\bsame[-\s]*day\s+service\b)" *)
    seqs [WordB; lit "same"; star (CUnion (CChar (ch "-")) CSpace); lit "day";
          plus CSpace; lit "service"; WordB];
    (* "(\bprice\s*match\b)" *)
    seqs [WordB; lit "price"; star CSpace; lit "match"; WordB];
    (* "(\bseasonal\s+special\b)" *)
    seqs [WordB; lit "seasonal"; plus CSpace; lit "special"; WordB] ].

(** "\s+", "[\|\•]+", "\s+\S*$", "\D+" and "(?<=[.!?])\s+" *)
Definition SPACES : regex := plus CSpace.
Definition SEPARATORS : regex := plus (CUnion (CChar (ch "|")) (CChar BULLET)).
Definition LAST_WORD : regex := seqs [plus CSpace; star (CNot CSpace); Eos].
Definition NON_DIGITS : regex := plus (CNot CDigit).
Definition SENTENCE_END : regex :=
  seqs [Behind (CUnion (CChar (ch ".")) (CUnion (CChar (ch "!")) (CChar (ch "?"))));
        plus CSpace].

(** Truth value of a string or of a list: not empty. *)
Definition truthy {A : Type} (s : list A) : bool :=
  match s with [] => false | _ => true end.

(** [str.lstrip], [str.rstrip] and [str.strip] without argument. *)
Fixpoint lstrip (s : pystr) : pystr :=
  match s with
  | c :: s' => if is_space c then lstrip s' else s
  | [] => []
  end.
Definition rstrip (s : pystr) : pystr := rev (lstrip (rev s)).
Definition strip (s : pystr) : pystr := rstrip (lstrip s).

(** [s.rstrip(c)] for one character [c]. *)
Fixpoint lstrip_char (x : N) (s : pystr) : pystr :=
  match s with
  | c :: s' => if (c =? x)%N then lstrip_char x s' else s
  | [] => []
  end.
Definition rstrip_char (x : N) (s : pystr) : pystr := rev (lstrip_char x (rev s)).

(** [s.startswith(p)] *)
Fixpoint startswith (p s : pystr) : bool :=
  match p, s with
  | [], _ => true
  | a :: p', b :: s' => (a =? b)%N && startswith p' s'
  | _ :: _, [] => false
  end.

(** [sep.join(l)] *)
Fixpoint join (sep : pystr) (l : list pystr) : pystr :=
  match l with
  | [] => []
  | [x] => x
  | x :: l' => x ++ sep ++ join sep l'
  end.

(** [clean_str]; the argument is [None] or a string. *)
Definition clean_str (x : option pystr) : pystr :=
  match x with
  | None => []
  | Some s => strip s
  end.

Section Helpers.
Context {U : UnicodeData}.

Definition normalize_phone (phone : pystr) : pystr :=
  let digits := re_sub false NON_DIGITS [] (clean_str (Some phone)) in
  if length digits =? 10 then py "+1" ++ digits
  else if (length digits =? 11) && startswith (py "1") digits then py "+" ++ digits
  else digits.

Definition normalize_url (url : pystr) : pystr :=
  let url := clean_str (Some url) in
  if negb (truthy url) then []
  else if negb (startswith (py "http://") url || startswith (py "https://") url)
       then py "https://" ++ url
       else url.

Definition strip_contact_and_cta (text : pystr) : pystr :=
  let t := clean_str (Some text) in
  if negb (truthy t) then []
  else
    let t := re_sub true URL_REGEX [] t in
    let t := re_sub false PHONE_REGEX [] t in
    let t := foldl (fun t pat => re_sub true pat [] t) t CTA_PATTERNS in
    let t := strip (re_sub false SPACES (py " ") t) in
    let t := strip (re_sub false SEPARATORS (py " ") t) in
    t.

(** One turn of the loop over the offer-shape patterns: on a match the
    text becomes group 1, the whole match. *)
Definition offer_step (t : pystr) (p : regex) : pystr :=
  match re_search true p t with
  | Some m => group0 t m
  | None => t
  end.

(** The loop over the offer-shape patterns. *)
Definition offer_loop (patterns : list regex) (t : pystr) : pystr :=
  foldl offer_step t patterns.

(** Truth value of [r.search(t)]. *)
Definition contains (ic : bool) (r : regex) (t : pystr) : bool :=
  bool_decide (is_Some (re_search ic r t)).

Definition compress_to_offer (text : pystr) : pystr :=
  let t := strip_contact_and_cta text in
  if negb (truthy t) then []
  else
    let t := offer_loop OFFER_SHAPES t in
    let t := strip (re_sub false SPACES (py " ") t) in
    let t :=
      if MAX_OFFER_LEN <? length t then
        let t := rstrip (take MAX_OFFER_LEN t) in
        let t := strip (re_sub false LAST_WORD [] t) in
        if negb (truthy t)
        then strip (take MAX_OFFER_LEN (strip_contact_and_cta text))
        else t
      else t in
    if contains true URL_REGEX t || contains false PHONE_REGEX t then [] else t.

(** The loop of [find_sentences]: [hits] is the list built so far. *)
Fixpoint find_loop (rx : list regex) (max_items : Z) (sentences hits : list pystr)
    : list pystr :=
  match sentences with
  | [] => hits
  | s :: rest =>
      let s := strip s in
      if length s <? 18 then find_loop rx max_items rest hits
      else
        let hits :=
          if existsb (fun r => contains true r s) rx then
            let s := strip_contact_and_cta s in
            if truthy s then hits ++ [take 240 s] else hits
          else hits in
        if (max_items <=? Z.of_nat (length hits))%Z then hits
        else find_loop rx max_items rest hits
  end.

Definition find_sentences (text : pystr) (patterns : list regex) (max_items : Z)
    : list pystr :=
  if negb (truthy text) then []
  else find_loop patterns max_items (re_split false SENTENCE_END text) [].

End Helpers.

(** ** The crawler *)

(** What [http_get] does with one request: it raises, or it returns a
    response with its [status_code] and [text]. *)
Inductive outcome : Type :=
| Raised
| Returned (status_code : Z) (text : pystr).

(** The collaborators of the crawler that are not part of the repository:
    [urllib.parse.urljoin], the HTTP session behind [http_get] and the
    BeautifulSoup parser.  A result of [None] stands for a raised
    exception.  The HTTP layer answers a request knowing the requests
    issued before it, so that it may answer the same URL differently at
    different times. *)
Class Web := {
  soup : Type;
  urljoin : pystr -> pystr -> option pystr;
  session_get : list pystr -> pystr -> outcome;
  BeautifulSoup : pystr -> option soup;
  (* the [content] attribute of [soup.find("meta", attrs={attr: value})],
     when the tag exists and has the attribute *)
  soup_meta_content : soup -> string -> pystr -> option pystr;
  (* [soup.title.get_text()], when [soup.title] exists *)
  soup_title_text : soup -> option pystr;
  (* [soup.get_text(separator=" ")] once the script, style, noscript and
     svg tags are decomposed *)
  soup_visible_text : soup -> pystr
}.

(** Values of the returned dictionary. *)
Inductive pyval : Type :=
| VStr (s : pystr)
| VBool (b : bool)
| VList (l : list pystr).

(** The local variables of the crawl loop of [scrape_site_bundle]. *)
Record crawl_state : Type := {
  texts : list pystr;
  meta_description : pystr;
  og_description : pystr;
  title : pystr;
  pages_checked : list pystr
}.

Definition crawl_init : crawl_state :=
  {| texts := []; meta_description := []; og_description := [];
     title := []; pages_checked := [] |}.

Section Crawler.
Context {U : UnicodeData} {W : Web}.

(** [http_get]: the request is recorded in the log of issued requests. *)
Definition http_get (log : list pystr) (url : pystr) : outcome * list pystr :=
  (session_get log url, log ++ [url]).

Definition extract_visible_text (html : pystr) : option pystr :=
  match BeautifulSoup html with
  | None => None
  | Some sp => Some (strip (re_sub false SPACES (py " ") (soup_visible_text sp)))
  end.

Definition meta_lookup (sp : soup) (attr : string) (value : option pystr)
    : option pystr :=
  match value with
  | Some v =>
      if truthy v then
        match soup_meta_content sp attr v with
        | Some c => if truthy c then Some (strip c) else None
        | None => None
        end
      else None
  | None => None
  end.

Definition get_meta (sp : soup) (name prop : option pystr) : pystr :=
  match meta_lookup sp "name" name with
  | Some c => c
  | None =>
      match meta_lookup sp "property" prop with
      | Some c => c
      | None => []
      end
  end.

(** The body of the crawl loop for one candidate path, after the page
    budget test.  Every exception is caught and the loop continues; the
    assignments made before the exception remain. *)
Definition visit (website path : pystr) (st : crawl_state) (log : list pystr)
    : crawl_state * list pystr :=
  match urljoin (rstrip_char (ch "/") website ++ py "/") path with
  | None => (st, log)
  | Some url =>
      match http_get log url with
      | (Raised, log) => (st, log)
      | (Returned status_code html, log) =>
          if (400 <=? status_code)%Z then (st, log)
          else
            match BeautifulSoup html with
            | None => (st, log)
            | Some sp =>
                let md := if negb (truthy (meta_description st))
                          then get_meta sp (Some (py "description")) None
                          else meta_description st in
                let og := if negb (truthy (og_description st))
                          then get_meta sp None (Some (py "og:description"))
                          else og_description st in
                let ti := if negb (truthy (title st))
                          then match soup_title_text sp with
                               | Some txt => if truthy txt then take 120 (strip txt)
                                            else title st
                               | None => title st
                               end
                          else title st in
                let st := {| texts := texts st; meta_description := md;
                             og_description := og; title := ti;
                             pages_checked := pages_checked st |} in
                match extract_visible_text html with
                | None => (st, log)
                | Some text =>
                    if length text <? 200 then (st, log)
                    else ({| texts := texts st ++ [text];
                             meta_description := md; og_description := og;
                             title := ti;
                             pages_checked := pages_checked st ++ [url] |}, log)
                end
            end
      end
  end.

(** The loop over the candidate paths, left once the page budget is used. *)
Fixpoint crawl (website : pystr) (paths : list pystr) (st : crawl_state)
    (log : list pystr) : crawl_state * list pystr :=
  match paths with
  | [] => (st, log)
  | path :: rest =>
      if MAX_SITE_PAGES <=? length (pages_checked st) then (st, log)
      else let '(st, log) := visit website path st log in
           crawl website rest st log
  end.

(** The two loops that compress sentences into at most three distinct,
    non-empty offers. *)
Fixpoint offers_loop (cands acc : list pystr) : list pystr :=
  match cands with
  | [] => acc
  | s :: rest =>
      let o := compress_to_offer s in
      let acc := if truthy o && negb (bool_decide (o ∈ acc)) then acc ++ [o] else acc in
      if 3 <=? length acc then acc else offers_loop rest acc
  end.

Definition display_text (raw : list pystr) : pystr :=
  take 500 (join (py "; ")
    (map strip_contact_and_cta
       (List.filter (fun x => truthy (strip_contact_and_cta x)) (take 2 raw)))).

Definition bundle (st : crawl_state) : gmap string pyval :=
  let combined := join (py " ") (texts st) in
  let offers_raw := find_sentences combined OFFER_PATTERNS 10 in
  let financing_raw := find_sentences combined FINANCING_PATTERNS 5 in
  let warranty_raw := find_sentences combined WARRANTY_PATTERNS 3 in
  let spanish := find_sentences combined SPANISH_PATTERNS 1 in
  let insured := find_sentences combined INSURED_PATTERNS 1 in
  let bonded := find_sentences combined BONDED_PATTERNS 1 in
  let virtual := find_sentences combined VIRTUAL_PATTERNS 1 in
  let offers := offers_loop offers_raw [] in
  let highlight_candidates :=
    offers_loop (take 3 offers_raw ++ take 2 financing_raw ++ take 2 warranty_raw) [] in
  let highlights_tagline :=
    if truthy (title st) then strip_contact_and_cta (title st)
    else strip_contact_and_cta
           (if truthy (meta_description st) then meta_description st
            else og_description st) in
  let highlights_tagline :=
    if truthy highlights_tagline then take 140 highlights_tagline else [] in
  let financing_options := display_text financing_raw in
  let warranty_text := display_text warranty_raw in
  list_to_map
    [ ("status", VStr (py "ok"));
      ("pagesChecked", VList (pages_checked st));
      ("metaDescription",
         VStr (if truthy (meta_description st)
               then take 300 (strip_contact_and_cta (meta_description st)) else []));
      ("ogDescription",
         VStr (if truthy (og_description st)
               then take 300 (strip_contact_and_cta (og_description st)) else []));
      ("title", VStr (if truthy (title st) then strip_contact_and_cta (title st) else []));
      ("offers", VList (take 3 offers));
      ("financingOptions", VStr financing_options);
      ("warrantyText", VStr warranty_text);
      ("spanish", VBool (truthy spanish));
      ("insured", VBool (truthy insured));
      ("bonded", VBool (truthy bonded));
      ("virtual", VBool (truthy virtual));
      ("highlights", VList (take 3 highlight_candidates));
      ("highlightsTagline", VStr highlights_tagline) ].

(** [scrape_site_bundle]: the returned dictionary and the requests issued,
    in order.  The pause after a collected page has no effect on either. *)
Definition scrape_site_bundle (website : pystr) : gmap string pyval * list pystr :=
  let website := normalize_url website in
  if negb (truthy website) then ({[ "status" := VStr (py "missing") ]}, [])
  else
    let '(st, log) := crawl website CANDIDATE_PATHS crawl_init [] in
    if negb (truthy (texts st)) then ({[ "status" := VStr (py "unreachable") ]}, log)
    else (bundle st, log).

End Crawler.

(** ** What it means for a pattern to match *)

Section Semantics.
Context {U : UnicodeData}.

(** The character before the text that follows [w], [prev] being the
    character before [w]. *)
Definition last_before (prev : option N) (w : pystr) : option N :=
  match last w with
  | Some c => Some c
  | None => prev
  end.

(** [matches ic r prev w rest]: the pattern [r] matches the text [w] when
    [w] is preceded by the character [prev] and followed by [rest]. *)
Inductive matches (ic : bool) : regex -> option N -> pystr -> pystr -> Prop :=
| M_eps prev rest :
    matches ic Eps prev [] rest
| M_chr c x prev rest :
    chr_eq ic c x = true -> matches ic (Chr c) prev [x] rest
| M_in cs x prev rest :
    in_cset ic cs x = true -> matches ic (In_ cs) prev [x] rest
| M_seq a b prev w1 w2 rest :
    matches ic a prev w1 (w2 ++ rest) ->
    matches ic b (last_before prev w1) w2 rest ->
    matches ic (Seq a b) prev (w1 ++ w2) rest
| M_alt_l a b prev w rest :
    matches ic a prev w rest -> matches ic (Alt a b) prev w rest
| M_alt_r a b prev w rest :
    matches ic b prev w rest -> matches ic (Alt a b) prev w rest
| M_opt_some a prev w rest :
    matches ic a prev w rest -> matches ic (Opt a) prev w rest
| M_opt_none a prev rest :
    matches ic (Opt a) prev [] rest
| M_rep cs lo hi prev w rest :
    Forall (fun x => in_cset ic cs x = true) w ->
    lo ≤ length w ->
    (forall h, hi = Some h -> length w ≤ h) ->
    matches ic (Rep cs lo hi) prev w rest
| M_wordb prev rest :
    xorb (word_before prev) (word_here rest) = true ->
    matches ic WordB prev [] rest
| M_eos prev rest :
    rest = [] \/ rest = [10%N] ->
    matches ic Eos prev [] rest
| M_behind cs c rest :
    in_cset ic cs c = true -> matches ic (Behind cs) (Some c) [] rest.

(** The text [t] contains a substring that [r] matches. *)
Definition occurs (ic : bool) (r : regex) (t : pystr) : Prop :=
  exists pre w post, t = pre ++ w ++ post /\ matches ic r (last pre) w post.

End Semantics.

(** ** Notions used to state the properties *)

(** Two consecutive white space characters somewhere in [t]. *)
Fixpoint has_space_run (t : pystr) : bool :=
  match t with
  | c :: t' =>
      match t' with
      | d :: _ => (is_space c && is_space d) || has_space_run t'
      | [] => false
      end
  | [] => false
  end.

Definition is_separator (c : N) : bool := (c =? ch "|")%N || (c =? BULLET)%N.

(** A site on which no request is ever answered: [urljoin] is plain
    concatenation, every [session.get] raises. *)
Definition offline_web : Web :=
  {| soup := unit;
     urljoin := fun base path => Some (base ++ path);
     session_get := fun _ _ => Raised;
     BeautifulSoup := fun _ => None;
     soup_meta_content := fun _ _ _ => None;
     soup_title_text := fun _ => None;
     soup_visible_text := fun _ => [] |}.

(** What an entry of the result of [find_sentences] is: the first 240
    characters of the sanitized form of a sentence of at least 18
    characters that one of the patterns matches and that does not sanitize
    to the empty string. *)
Definition hit_of {U : UnicodeData} (rx : list regex) (s e : pystr) : Prop :=
  18 ≤ length (strip s) /\
  existsb (fun r => contains true r (strip s)) rx = true /\
  strip_contact_and_cta (strip s) <> [] /\
  e = take 240 (strip_contact_and_cta (strip s)).

(** A site that answers every request with the same page, whose text is
    long enough to count. *)
Definition sample_page : pystr :=
  py "Welcome to Acme Roofing, the most trusted roofing company in the whole county. " ++
  py "Get 20% off your next service, call now! " ++
  py "We offer financing available with approved credit for every project. " ++
  py "Every new roof comes with a lifetime warranty on workmanship and materials. " ++
  py "Our crews are fully insured.".

Definition static_web : Web :=
  {| soup := pystr;
     urljoin := fun base path => Some (base ++ path);
     session_get := fun _ _ => Returned 200 sample_page;
     BeautifulSoup := fun html => Some html;
     soup_meta_content := fun _ _ _ => None;
     soup_title_text := fun _ => Some (py " Acme Roofing | Call 555-123-4567 ");
     soup_visible_text := fun html => html |}.

(** A site whose pages are all fetched with status 200 but carry too
    little text to count. *)
Definition thin_web : Web :=
  {| soup := pystr;
     urljoin := fun base path => Some (base ++ path);
     session_get := fun _ _ => Returned 200 (py "Under construction.");
     BeautifulSoup := fun html => Some html;
     soup_meta_content := fun _ _ _ => None;
     soup_title_text := fun _ => None;
     soup_visible_text := fun html => html |}.

(** [r] is a contiguous part of [t]. *)
Definition substring_of (r t : pystr) : Prop :=
  exists pre post, t = pre ++ r ++ post.



(** ** Shapes of strings *)

Definition space_at (o : option N) : bool :=
  match o with
  | Some c => is_space c
  | None => false
  end.

(** No white space at either end. *)
Definition trimmed (s : pystr) : Prop :=
  space_at (head s) = false /\ space_at (last s) = false.

(** The only white space character in [s] is the plain space U+0020. *)
Definition plain_spaces (s : pystr) : Prop :=
  Forall (fun c => is_space c = true -> c = ch " ") s.

(** Every character of [s] is white space. *)
Definition blank (s : pystr) : Prop := Forall (fun c => is_space c = true) s.

(** ** Reading the returned dictionary *)

(** The string, or the list, stored under a key; empty when the key is
    absent or holds a value of another kind. *)
Definition str_field (d : gmap string pyval) (k : string) : pystr :=
  match d !! k with
  | Some (VStr s) => s
  | _ => []
  end.

Definition list_field (d : gmap string pyval) (k : string) : list pystr :=
  match d !! k with
  | Some (VList l) => l
  | _ => []
  end.

(** What an accepted offer is: not empty, at most 30 characters, without
    a substring that the URL pattern or the phone pattern matches. *)
Definition good_offer {U : UnicodeData} (o : pystr) : Prop :=
  o <> [] /\ length o ≤ 30 /\
  ~ occurs true URL_REGEX o /\ ~ occurs false PHONE_REGEX o.

(** ** The webhook: the site part of [gravityforms_webhook] *)

(** The expressions of the handler work on values read with [dict.get],
    which gives [None] for a missing key.  A result of [None] of the
    definitions below stands for a raised [TypeError] or [IndexError]. *)

(** Truth value of [s.get(k)]. *)
Definition truthy_val (v : option pyval) : bool :=
  match v with
  | None => false
  | Some (VStr s) => truthy s
  | Some (VBool b) => b
  | Some (VList l) => truthy l
  end.

(** [s.get(k) or d] *)
Definition py_or (v : option pyval) (d : pyval) : pyval :=
  match v with
  | Some x => if truthy_val v then x else d
  | None => d
  end.

(** [v[:n]]; [None], like a boolean, cannot be sliced. *)
Definition py_slice (v : option pyval) (n : nat) : option pyval :=
  match v with
  | Some (VStr s) => Some (VStr (take n s))
  | Some (VList l) => Some (VList (take n l))
  | Some (VBool _) => None
  | None => None
  end.

(** [len(v)] and [v[i]] *)
Definition py_len (v : pyval) : option nat :=
  match v with
  | VStr s => Some (length s)
  | VList l => Some (length l)
  | VBool _ => None
  end.

Definition py_item (v : pyval) (i : nat) : option pyval :=
  match v with
  | VList l => VStr <$> l !! i
  | VStr s => (fun c => VStr [c]) <$> s !! i
  | VBool _ => None
  end.

(** [v[i] if len(v) > i else ""] *)
Definition item_or_empty (v : pyval) (i : nat) : option pyval :=
  n ← py_len v;
  if i <? n then py_item v i else Some (VStr []).

(** ["yes" if s.get(k) else "no"] *)
Definition yes_no (v : option pyval) : pyval :=
  VStr (if truthy_val v then py "yes" else py "no").

Definition EMPTY3 : pyval := VList [[]; []; []].

(** The site dictionary the handler works with: the result of
    [scrape_site_bundle] on the normalized website when that is not
    empty, the empty dictionary otherwise.  [payload_website] is
    [payload.website], which may be [None]. *)
Definition webhook_site {U : UnicodeData} {W : Web} (payload_website : option pystr)
    : gmap string pyval * list pystr :=
  let website := normalize_url (default [] payload_website) in
  if truthy website then scrape_site_bundle website else (∅, []).

(** The entries of [enriched["output"]] that are computed from the site
    dictionary [s] alone, in the order of the source; a key written twice
    keeps its last value.  The entries computed from the Google
    dictionary are evaluated before them and are not part of this
    definition. *)
Definition site_output (s : gmap string pyval) : option (gmap string pyval) :=
  let offers := py_or (s !! "offers") (VList []) in
  let highlights := s !! "highlights" in
  specialOffer1 ← item_or_empty offers 0;
  specialOffer2 ← item_or_empty offers 1;
  specialOffer3 ← item_or_empty offers 2;
  financingOptions ← py_slice (Some (py_or (s !! "financingOptions") (VStr []))) 500;
  waranty ← py_slice (Some (py_or (s !! "warrantyText") (VStr []))) 500;
  tagline ← py_slice (Some (py_or (s !! "highlightsTagline") (VStr []))) 140;
  highlightPoint1 ←
    (if truthy_val (Some (py_or highlights (VList [])))
     then py_item (py_or highlights EMPTY3) 0
     else Some (VStr []));
  n2 ← py_len (py_or highlights (VList []));
  highlightPoint2 ←
    (if 1 <? n2 then py_item (py_or highlights EMPTY3) 1 else Some (VStr []));
  n3 ← py_len (py_or highlights (VList []));
  highlightPoint3 ←
    (if 2 <? n3 then py_item (py_or highlights EMPTY3) 2 else Some (VStr []));
  tagline_again ← py_slice (s !! "highlightsTagline") 140;
  Some (foldl (fun m kv => <[ kv.1 := kv.2 ]> m) ∅
          [ ("specialOffer1", specialOffer1);
            ("specialOffer2", specialOffer2);
            ("specialOffer3", specialOffer3);
            ("offersFinancing", yes_no (s !! "financingOptions"));
            ("financingOptions", financingOptions);
            ("waranty", waranty);
            ("highlightsTagline", tagline);
            ("isInsured", yes_no (s !! "insured"));
            ("isBonded", yes_no (s !! "bonded"));
            ("offersVirtualPresentations", yes_no (s !! "virtual"));
            ("highlightPoint1", highlightPoint1);
            ("highlightPoint2", highlightPoint2);
            ("highlightPoint3", highlightPoint3);
            ("highlightsTagline", tagline_again) ]).

(** ** Formatting the reviews: [format_top_reviews] *)

(** A review of the listing API, as far as [format_top_reviews] reads it:
    the values of [rv.get("author_name")], [rv.get("time")] and
    [rv.get("text")], each of which may be absent, and the text that the
    format string prints for [rv.get("rating")].  Times are integers, so
    that sorting never raises and the [except] branch is not taken. *)
Record review : Type := {
  rv_author_name : option pystr;
  rv_rating : pystr;
  rv_time : option Z;
  rv_text : option pystr
}.

Definition STAR : N := 9733%N.        (* U+2605, the black star *)

(** The sort key [x.get("time", 0)]. *)
Definition time_key (rv : review) : Z := default 0%Z (rv_time rv).

(** [sorted(reviews, key=..., reverse=True)]: the stable sort by
    decreasing key, written as an insertion sort.  A review is put behind
    the reviews that are at least as recent, so that reviews of equal
    time keep their order. *)
Fixpoint insert_by_time (x : review) (l : list review) : list review :=
  match l with
  | [] => [x]
  | y :: l' =>
      if (time_key y <? time_key x)%Z then x :: l else y :: insert_by_time x l'
  end.

(** A review comes before another when it is at least as recent. *)
Definition not_older (a b : review) : Prop := (time_key b ≤ time_key a)%Z.

Definition sorted_recent_first (l : list review) : list review :=
  foldl (fun acc x => insert_by_time x acc) [] l.

(** [l[:n]] for an integer [n], which may be negative. *)
Definition slice_to {A : Type} (l : list A) (n : Z) : list A :=
  if (0 <=? n)%Z then take (Z.to_nat n) l
  else take (length l - Z.to_nat (- n)) l.

Section Reviews.
Context {U : UnicodeData}.

(** The text of a review as it is shown. *)
Definition review_text (text : pystr) : pystr :=
  take 300 (re_sub false SPACES (py " ") (strip_contact_and_cta text)).

(** One turn of the loop: the line appended for a review, or [None] when
    the review is skipped. *)
Definition review_line (rv : review) : option pystr :=
  let author := clean_str (rv_author_name rv) in
  let text := clean_str (rv_text rv) in
  if negb (truthy text) then None
  else Some (author ++ py " (" ++ rv_rating rv ++ [STAR] ++ py "): "
             ++ review_text text).

(** The list [out] at the end of the loop. *)
Definition review_lines (reviews : list review) (top_n : Z) : list pystr :=
  omap review_line (slice_to (sorted_recent_first reviews) top_n).


End Reviews.

(** * Verification *)

(** ** Facts about strings and about the engine *)

Lemma lstrip_length (s : pystr) : length (lstrip s) ≤ length s.
Proof.
  induction s as [|c s IH]; simpl; [lia|].
  destruct (is_space c); simpl; lia.
Qed.

Lemma rstrip_length (s : pystr) : length (rstrip s) ≤ length s.
Proof.
  unfold rstrip. rewrite length_rev.
  etransitivity; [apply lstrip_length|]. by rewrite length_rev.
Qed.

Lemma strip_length (s : pystr) : length (strip s) ≤ length s.
Proof.
  unfold strip. etransitivity; [apply rstrip_length|apply lstrip_length].
Qed.

Lemma truthy_false {A : Type} (l : list A) : truthy l = false ↔ l = [].
Proof. destruct l; simpl; split; congruence. Qed.

Lemma truthy_true {A : Type} (l : list A) : truthy l = true ↔ l ≠ [].
Proof. destruct l; simpl; split; congruence. Qed.

Section EngineFacts.
Context {U : UnicodeData}.

(** Deleting matches never makes a string longer. *)
Lemma sub_scan_length ic r prev (s : pystr) skip :
  length (sub_scan ic r [] prev s skip) ≤ length s.
Proof.
  revert prev skip.
  induction s as [|c s IH]; intros prev skip.
  - destruct skip; simpl; [|lia].
    destruct (first_match _) as [[|n]|]; simpl; try lia.
    destruct (first_advancing _); simpl; lia.
  - destruct skip as [|k]; simpl.
    + destruct (first_match _) as [[|n]|]; simpl.
      * destruct (first_advancing _) as [n|]; simpl.
        -- specialize (IH (Some c) (pred n)). lia.
        -- specialize (IH (Some c) 0). lia.
      * specialize (IH (Some c) n). lia.
      * specialize (IH (Some c) 0). lia.
    + specialize (IH (Some c) k). lia.
Qed.

Lemma re_sub_delete_length ic r (s : pystr) : length (re_sub ic r [] s) ≤ length s.
Proof. apply sub_scan_length. Qed.

End EngineFacts.

Section SemanticsFacts.
Context {U : UnicodeData}.

Lemma prev_at_take prev (s : pystr) n :
  n ≤ length s -> prev_at prev s n = last_before prev (take n s).
Proof.
  intros Hn. unfold last_before. destruct n as [|k]; simpl.
  - done.
  - rewrite last_lookup. rewrite length_take. 
    replace (Init.Nat.pred (S k `min` length s)) with k by lia.
    rewrite lookup_take_lt by lia.
    destruct (s !! k) eqn:E; [done|].
    apply lookup_ge_None in E. lia.
Qed.

Lemma prev_at_app prev (w rest : pystr) :
  prev_at prev (w ++ rest) (length w) = last_before prev w.
Proof.
  rewrite prev_at_take by (rewrite length_app; lia).
  by rewrite take_app_length.
Qed.

Lemma in_countdown n k lo : In n (countdown k lo) <-> lo ≤ n ≤ k.
Proof.
  unfold countdown. rewrite <- in_rev, in_seq. lia.
Qed.

Lemma head_countdown k lo : lo ≤ k -> head (countdown k lo) = Some k.
Proof.
  intros H. unfold countdown.
  replace (S k - lo) with (S (k - lo)) by lia.
  rewrite seq_S, rev_app_distr. simpl. f_equal. lia.
Qed.

Lemma countdown_nil k lo : k < lo -> countdown k lo = [].
Proof.
  intros H. unfold countdown. by replace (S k - lo) with 0 by lia.
Qed.

Lemma span_len_le p cap (s : pystr) : span_len p cap s ≤ length s.
Proof.
  revert cap. induction s as [|c s IH]; intros cap.
  - destruct cap as [[|h]|]; simpl; lia.
  - destruct cap as [[|h]|]; simpl; try lia;
      destruct (p c); simpl; try lia.
    + specialize (IH (Some h)). simpl in IH. lia.
    + specialize (IH None). simpl in IH. lia.
Qed.

Lemma span_len_cap p h (s : pystr) : span_len p (Some h) s ≤ h.
Proof.
  revert h. induction s as [|c s IH]; intros h.
  - destruct h; simpl; lia.
  - destruct h as [|h]; simpl; [lia|].
    destruct (p c); [|lia]. specialize (IH h). lia.
Qed.

Lemma span_len_take p cap (s : pystr) n :
  n ≤ span_len p cap s -> Forall (fun x => p x = true) (take n s).
Proof.
  revert cap n. induction s as [|c s IH]; intros cap n Hn.
  - rewrite take_nil. constructor.
  - destruct n as [|n]; [constructor|].
    destruct cap as [[|h]|]; simpl in Hn; try lia;
      destruct (p c) eqn:E; try lia; simpl; constructor; trivial;
      eapply IH with (cap := _); apply le_S_n, Hn.
Qed.

Lemma span_len_ge p cap (w rest : pystr) :
  Forall (fun x => p x = true) w ->
  (forall h, cap = Some h -> length w ≤ h) ->
  length w ≤ span_len p cap (w ++ rest).
Proof.
  revert cap. induction w as [|c w IH]; intros cap Hw Hcap; simpl; [lia|].
  inversion Hw as [|? ? Hc Hw']; subst.
  destruct cap as [[|h]|]; simpl.
  - specialize (Hcap 0 eq_refl). simpl in Hcap. lia.
  - rewrite Hc. apply le_n_S. apply (IH (Some h)); [done|].
    intros h' [= <-]. specialize (Hcap (S h) eq_refl). simpl in Hcap. lia.
  - rewrite Hc. apply le_n_S. apply (IH None); [done|]. intros h' [=].
Qed.

(** The matcher is sound: every length it returns is a match. *)
Lemma rmatch_sound ic r : forall prev (s : pystr) n,
  In n (rmatch ic r prev s) ->
  n ≤ length s /\ matches ic r prev (take n s) (drop n s).
Proof.
  induction r as [|c|cs|a IHa b IHb|a IHa b IHb|a IHa|cs lo hi| | |cs];
    intros prev s n Hin; simpl in Hin.
  - destruct Hin as [<-|[]]. split; [lia|]. rewrite take_0, drop_0. constructor.
  - destruct s as [|x s]; [done|]. destruct (chr_eq ic c x) eqn:E; [|done].
    destruct Hin as [<-|[]]. simpl. split; [lia|]. rewrite take_0, drop_0.
    by constructor.
  - destruct s as [|x s]; [done|]. destruct (in_cset ic cs x) eqn:E; [|done].
    destruct Hin as [<-|[]]. simpl. split; [lia|]. rewrite take_0, drop_0.
    by constructor.
  - apply in_flat_map in Hin as (n1 & H1 & Hin).
    apply in_map_iff in Hin as (n2 & <- & H2).
    apply IHa in H1 as [Hl1 M1]. apply IHb in H2 as [Hl2 M2].
    rewrite length_drop in Hl2. split; [lia|].
    rewrite <- take_take_drop, <- drop_drop.
    constructor.
    + by rewrite take_drop.
    + by rewrite <- prev_at_take.
  - apply in_app_iff in Hin as [H|H].
    + apply IHa in H as [? ?]. split; [done|]. by apply M_alt_l.
    + apply IHb in H as [? ?]. split; [done|]. by apply M_alt_r.
  - apply in_app_iff in Hin as [H|[<-|[]]].
    + apply IHa in H as [? ?]. split; [done|]. by apply M_opt_some.
    + split; [lia|]. rewrite take_0, drop_0. apply M_opt_none.
  - apply in_countdown in Hin as [Hlo Hk].
    pose proof (span_len_le (in_cset ic cs) hi s) as Hle.
    split; [lia|]. constructor.
    + by eapply span_len_take.
    + rewrite length_take. lia.
    + intros h ->. rewrite length_take.
      pose proof (span_len_cap (in_cset ic cs) h s). lia.
  - destruct (xorb _ _) eqn:E; [|done]. destruct Hin as [<-|[]].
    split; [lia|]. rewrite take_0, drop_0. by constructor.
  - assert (n = 0 /\ (s = [] \/ s = [10%N])) as [-> Hs].
    { destruct s as [|c [|d s]]; simpl in Hin.
      - destruct Hin as [<-|[]]. auto.
      - destruct (c =? 10)%N eqn:E; [|done]. destruct Hin as [<-|[]].
        apply N.eqb_eq in E. subst. auto.
      - done. }
    split; [lia|]. rewrite take_0, drop_0. by constructor.
  - destruct prev as [c|]; [|done]. destruct (in_cset ic cs c) eqn:E; [|done].
    destruct Hin as [<-|[]]. split; [lia|]. rewrite take_0, drop_0. by constructor.
Qed.

(** The matcher is complete: every match is among the lengths it returns. *)
Lemma rmatch_complete ic r prev (w rest : pystr) :
  matches ic r prev w rest -> In (length w) (rmatch ic r prev (w ++ rest)).
Proof.
  induction 1 as [ | c x prev rest E | cs x prev rest E
                 | a b prev w1 w2 rest _ IH1 _ IH2
                 | a b prev w rest _ IH | a b prev w rest _ IH
                 | a prev w rest _ IH | a prev rest
                 | cs lo hi prev w rest Hall Hlo Hhi
                 | prev rest E | prev rest E | cs c rest E ]; simpl.
  - by left.
  - rewrite E. by left.
  - rewrite E. by left.
  - apply in_flat_map. exists (length w1). split.
    + by rewrite <- app_assoc.
    + rewrite length_app. apply in_map.
      rewrite <- app_assoc, drop_app_length, prev_at_app. done.
  - apply in_app_iff. by left.
  - apply in_app_iff. by right.
  - apply in_app_iff. by left.
  - apply in_app_iff. right. by left.
  - apply in_countdown. split; [done|]. by apply span_len_ge.
  - rewrite E. by left.
  - destruct E as [-> | ->]; simpl; by left.
  - rewrite E. by left.
Qed.

(** The lengths returned by the matcher are exactly the matches. *)
Lemma rmatch_spec ic r prev (s : pystr) n :
  In n (rmatch ic r prev s) <->
  n ≤ length s /\ matches ic r prev (take n s) (drop n s).
Proof.
  split; [apply rmatch_sound|].
  intros [Hn M]. apply rmatch_complete in M.
  rewrite take_drop, length_take in M.
  by replace (n `min` length s) with n in M by lia.
Qed.

End SemanticsFacts.

Section SearchFacts.
Context {U : UnicodeData}.

Lemma prev_at_cons prev c (s : pystr) k :
  prev_at (Some c) s k = prev_at prev (c :: s) (S k).
Proof. by destruct k. Qed.

(** [re.search] finds nothing exactly when no position has a match. *)
Lemma search_from_None ic r prev (s : pystr) i :
  search_from ic r prev s i = None <->
  forall k, k ≤ length s -> rmatch ic r (prev_at prev s k) (drop k s) = [].
Proof.
  revert prev i. induction s as [|c s IH]; intros prev i; simpl.
  - unfold first_match. destruct (rmatch ic r prev []) eqn:E; simpl.
    + split; [|done]. intros _ k Hk. assert (k = 0) as -> by lia. done.
    + split; [done|]. intros H. specialize (H 0 (le_n _)). simpl in H. congruence.
  - unfold first_match. destruct (rmatch ic r prev (c :: s)) eqn:E; simpl.
    + rewrite IH. split.
      * intros H [|k] Hk; [done|].
        rewrite <- (prev_at_cons prev). apply H. lia.
      * intros H k Hk. rewrite (prev_at_cons prev). apply (H (S k)). lia.
    + split; [done|]. intros H. specialize (H 0 (Nat.le_0_l _)). simpl in H.
      congruence.
Qed.

(** What [re.search] finds is the first match of the leftmost position
    that has one. *)
Lemma search_from_Some ic r prev (s : pystr) i j n :
  search_from ic r prev s i = Some (j, n) ->
  exists k, j = i + k /\ k ≤ length s /\
    head (rmatch ic r (prev_at prev s k) (drop k s)) = Some n.
Proof.
  revert prev i. induction s as [|c s IH]; intros prev i; simpl.
  - unfold first_match. destruct (head (rmatch ic r prev [])) eqn:E; [|done].
    intros [= <- <-]. exists 0. by rewrite Nat.add_0_r.
  - unfold first_match. destruct (head (rmatch ic r prev (c :: s))) eqn:E.
    + intros [= <- <-]. exists 0. rewrite Nat.add_0_r. repeat split; [lia|done].
    + intros H. apply IH in H as (k & -> & Hk & Hh).
      exists (S k). rewrite <- (prev_at_cons prev). simpl.
      repeat split; [lia|lia|done].
Qed.

Lemma head_In {A : Type} (l : list A) x : head l = Some x -> In x l.
Proof. destruct l; simpl; [done|]. intros [= ->]. by left. Qed.

Lemma last_before_None (w : pystr) : last_before None w = last w.
Proof. unfold last_before. by destruct (last w). Qed.

(** [r.search(t)] is truthy exactly when [t] contains a substring that
    [r] matches. *)
Lemma contains_occurs ic r (t : pystr) :
  contains ic r t = true <-> occurs ic r t.
Proof.
  unfold contains, re_search. rewrite bool_decide_eq_true. split.
  - intros [[j n] H]. apply search_from_Some in H as (k & _ & Hk & Hh).
    apply head_In, rmatch_sound in Hh as [Hn M].
    exists (take k t), (take n (drop k t)), (drop n (drop k t)). split.
    + by rewrite !take_drop.
    + by rewrite <- last_before_None, <- prev_at_take.
  - intros (pre & w & post & -> & M).
    apply rmatch_complete in M.
    destruct (search_from ic r None (pre ++ w ++ post) 0) eqn:E; [by eexists|].
    exfalso. rewrite search_from_None in E.
    specialize (E (length pre)). rewrite length_app in E.
    rewrite drop_app_length, prev_at_app, last_before_None in E.
    rewrite E in M by lia. done.
Qed.

Lemma contains_false ic r (t : pystr) :
  contains ic r t = false <-> ~ occurs ic r t.
Proof.
  rewrite <- contains_occurs. destruct (contains ic r t); split; congruence.
Qed.

End SearchFacts.

(** ** Replacing the runs of a character set *)

Section NormalizerFacts.
Context {U : UnicodeData}.

Lemma space_not_digit c : is_space c = true -> is_digit c = false.
Proof.
  intros Hs. unfold is_digit. destruct (is_ascii c) eqn:Ha.
  - unfold ascii_digit, in_range.
    destruct (48 <=? c)%N eqn:E1; [|done].
    destruct (c <=? 57)%N eqn:E2; [|done].
    apply N.leb_le in E1, E2. exfalso.
    unfold is_space, in_range in Hs.
    repeat (apply orb_prop in Hs as [Hs|Hs]);
      repeat (apply andb_prop in Hs as [? ?]);
      repeat match goal with
             | H : (_ <=? _)%N = true |- _ => apply N.leb_le in H
             | H : (_ =? _)%N = true |- _ => apply N.eqb_eq in H
             end; lia.
  - by apply ext_decimal_not_space.
Qed.

Lemma filter_lstrip (s : pystr) :
  List.filter is_digit (lstrip s) = List.filter is_digit s.
Proof.
  induction s as [|c s IH]; simpl; [done|].
  destruct (is_space c) eqn:E; [|done].
  by rewrite (space_not_digit c E).
Qed.

Lemma filter_rstrip (s : pystr) :
  List.filter is_digit (rstrip s) = List.filter is_digit s.
Proof.
  unfold rstrip. rewrite List.filter_rev, filter_lstrip, List.filter_rev.
  apply rev_involutive.
Qed.

Lemma filter_strip (s : pystr) :
  List.filter is_digit (strip s) = List.filter is_digit s.
Proof. unfold strip. by rewrite filter_rstrip, filter_lstrip. Qed.

(** Inside a run of non-digits every character is dropped; outside, the
    digits are kept and each run of non-digits is one match. *)
Lemma span_len_cons p c (s : pystr) :
  span_len p None (c :: s) = if p c then S (span_len p None s) else 0.
Proof. done. Qed.

(** Replacing the runs of a character set: at a character of the set the
    whole run is one match, any other character is copied. *)
Lemma sub_scan_plus_cons ic cs repl prev c (s : pystr) :
  sub_scan ic (plus cs) repl prev (c :: s) 0 =
  if in_cset ic cs c
  then repl ++ sub_scan ic (plus cs) repl (Some c) s (span_len (in_cset ic cs) None s)
  else c :: sub_scan ic (plus cs) repl (Some c) s 0.
Proof.
  change (sub_scan ic (plus cs) repl prev (c :: s) 0) with
    (match first_match (countdown (span_len (in_cset ic cs) None (c :: s)) 1) with
     | Some (S n) => repl ++ sub_scan ic (plus cs) repl (Some c) s n
     | Some 0 =>
         repl ++ match first_advancing (rmatch ic (plus cs) prev (c :: s)) with
                 | Some n => repl ++ sub_scan ic (plus cs) repl (Some c) s (pred n)
                 | None => c :: sub_scan ic (plus cs) repl (Some c) s 0
                 end
     | None => c :: sub_scan ic (plus cs) repl (Some c) s 0
     end).
  rewrite span_len_cons. destruct (in_cset ic cs c).
  - unfold first_match. by rewrite head_countdown by lia.
  - by rewrite countdown_nil by lia.
Qed.

Lemma sub_scan_plus_nil ic cs repl prev : sub_scan ic (plus cs) repl prev [] 0 = [].
Proof. done. Qed.

Lemma sub_scan_skip ic r repl prev c (s : pystr) k :
  sub_scan ic r repl prev (c :: s) (S k) = sub_scan ic r repl (Some c) s k.
Proof. done. Qed.

(** Every character of the result comes from the replacement or lies
    outside the character set. *)
Lemma sub_scan_plus_Forall (P : N -> Prop) ic cs repl prev (s : pystr) skip :
  Forall P repl ->
  (forall x, in_cset ic cs x = false -> P x) ->
  skip ≤ span_len (in_cset ic cs) None s ->
  Forall P (sub_scan ic (plus cs) repl prev s skip).
Proof.
  intros Hrepl Hout. revert prev skip.
  induction s as [|c s IH]; intros prev skip Hs.
  - simpl in Hs. assert (skip = 0) as -> by lia. constructor.
  - rewrite span_len_cons in Hs. destruct skip as [|k].
    + rewrite sub_scan_plus_cons. destruct (in_cset ic cs c) eqn:E.
      * apply Forall_app. split; [done|]. apply IH. apply le_n.
      * constructor; [by apply Hout|]. apply IH. lia.
    + rewrite sub_scan_skip. destruct (in_cset ic cs c); [|lia].
      apply IH. lia.
Qed.

Lemma sub_scan_non_digits prev (s : pystr) skip :
  skip ≤ span_len (in_cset false (CNot CDigit)) None s ->
  sub_scan false NON_DIGITS [] prev s skip = List.filter is_digit s.
Proof.
  revert prev skip. induction s as [|c s IH]; intros prev skip Hs.
  - simpl in Hs. assert (skip = 0) as -> by lia. done.
  - rewrite span_len_cons in Hs.
    change (in_cset false (CNot CDigit) c) with (negb (is_digit c)) in Hs.
    simpl List.filter. destruct skip as [|k].
    + unfold NON_DIGITS. rewrite sub_scan_plus_cons.
      change (in_cset false (CNot CDigit) c) with (negb (is_digit c)).
      destruct (is_digit c); simpl negb; cbv iota.
      * f_equal. apply IH. lia.
      * apply IH. apply le_n.
    + rewrite sub_scan_skip.
      destruct (is_digit c); simpl negb in Hs; cbv iota in Hs; [lia|].
      apply IH. lia.
Qed.

Lemma re_sub_non_digits (s : pystr) :
  re_sub false NON_DIGITS [] s = List.filter is_digit s.
Proof. apply sub_scan_non_digits. lia. Qed.

End NormalizerFacts.

(** ** The text normalizer: [normalize_phone] *)

(** C9. [normalize_phone] keeps exactly the digits of its input; ten
    digits get the prefix +1, eleven digits starting with 1 get the prefix
    +, anything else is returned as the bare digit string.  The three
    examples of the specification evaluate as stated. *)
Theorem normalize_phone_spec {U : UnicodeData} :
  (forall phone : pystr,
     let digits := List.filter is_digit phone in
     normalize_phone phone =
       if length digits =? 10 then py "+1" ++ digits
       else if (length digits =? 11) && startswith (py "1") digits
            then py "+" ++ digits
            else digits) /\
  normalize_phone (py "555-123-4567") = py "+15551234567" /\
  normalize_phone (py "15551234567") = py "+15551234567" /\
  normalize_phone (py "123") = py "123".
Proof.
  split; [|by vm_compute].
  intros phone. unfold normalize_phone, clean_str.
  by rewrite re_sub_non_digits, filter_strip.
Qed.

(** ** The sanitizer: [strip_contact_and_cta] *)

(** C1. The sanitizer can return a string that matches the URL pattern,
    and one that matches the phone pattern: removing a call-to-action
    word joins the two halves of a URL, and replacing the separators by
    spaces turns three groups of digits into a phone number. *)
Theorem sanitizer_output_can_match {U : UnicodeData} :
  strip_contact_and_cta (py "http:/call/x") = py "http://x" /\
  occurs true URL_REGEX (strip_contact_and_cta (py "http:/call/x")) /\
  strip_contact_and_cta (py "555|123|4567") = py "555 123 4567" /\
  occurs false PHONE_REGEX (strip_contact_and_cta (py "555|123|4567")).
Proof.
  repeat split; try (by vm_compute); apply contains_occurs; by vm_compute.
Qed.

(** C5. The sanitizer collapses white space before it replaces the
    separators by spaces, so a separator between two spaces leaves a run
    of three spaces in the result. *)
Theorem sanitizer_leaves_space_run {U : UnicodeData} :
  strip_contact_and_cta (py "a | b") = py "a   b" /\
  has_space_run (strip_contact_and_cta (py "a | b")) = true.
Proof. split; by vm_compute. Qed.

Section SanitizerFacts.
Context {U : UnicodeData}.

Lemma Forall_lstrip (P : N -> Prop) (s : pystr) : Forall P s -> Forall P (lstrip s).
Proof.
  induction 1 as [|c s Hc Hs IH]; simpl; [constructor|].
  destruct (is_space c); [done|]. by constructor.
Qed.

Lemma Forall_strip (P : N -> Prop) (s : pystr) : Forall P s -> Forall P (strip s).
Proof.
  intros H. unfold strip, rstrip.
  apply Forall_rev, Forall_lstrip, Forall_rev, Forall_lstrip, H.
Qed.

(** The part of C5 that holds: no pipe and no bullet is left in the
    output of the sanitizer. *)
Lemma sanitizer_no_separator (text : pystr) :
  Forall (fun c => is_separator c = false) (strip_contact_and_cta text).
Proof.
  unfold strip_contact_and_cta.
  destruct (negb (truthy _)); [constructor|].
  apply Forall_strip, sub_scan_plus_Forall; [by repeat constructor| |lia].
  intros x Hx. unfold is_separator.
  by rewrite (N.eqb_sym x (ch "|")), (N.eqb_sym x BULLET).
Qed.

End SanitizerFacts.

(** ** The offer compressor: [compress_to_offer] *)

(** C8. The example of the specification. *)
Theorem compress_to_offer_example {U : UnicodeData} :
  compress_to_offer (py "Get 20% off your next service, call now!") = py "20% off".
Proof. by vm_compute. Qed.

(** C3. The result of [compress_to_offer] has at most 30 characters, and
    when it is not empty it contains no substring that the URL pattern
    matches and none that the phone pattern matches. *)
Theorem compress_to_offer_bounded_and_clean {U : UnicodeData} (text : pystr) :
  length (compress_to_offer text) ≤ 30 /\
  (compress_to_offer text <> [] ->
     ~ occurs true URL_REGEX (compress_to_offer text) /\
     ~ occurs false PHONE_REGEX (compress_to_offer text)).
Proof.
  unfold compress_to_offer.
  destruct (negb (truthy (strip_contact_and_cta text))); [by split; [simpl; lia|]|].
  set (t2 := strip (re_sub false SPACES (py " ") _)).
  set (t3 := if MAX_OFFER_LEN <? length t2 then _ else t2).
  assert (length t3 ≤ 30) as Hlen.
  { subst t3. unfold MAX_OFFER_LEN. destruct (Nat.ltb_spec 30 (length t2)) as [H|H]; [|done].
    destruct (negb (truthy _)).
    - etransitivity; [apply strip_length|]. rewrite length_take. lia.
    - etransitivity; [apply strip_length|].
      etransitivity; [apply re_sub_delete_length|].
      etransitivity; [apply rstrip_length|]. rewrite length_take. lia. }
  destruct (contains true URL_REGEX t3 || contains false PHONE_REGEX t3) eqn:E.
  - by split; [simpl; lia|].
  - split; [done|]. intros _. apply orb_false_elim in E as [E1 E2].
    by rewrite <- !contains_false.
Qed.

Section OfferLoopFacts.
Context {U : UnicodeData}.

Lemma offer_loop_cons p (post : list regex) (t : pystr) :
  offer_loop (p :: post) t = offer_loop post (offer_step t p).
Proof. done. Qed.

Lemma offer_loop_no_match (pre : list regex) (t : pystr) :
  Forall (fun q => re_search true q t = None) pre -> offer_loop pre t = t.
Proof.
  induction 1 as [|q pre Hq _ IH]; [done|].
  rewrite offer_loop_cons. unfold offer_step. by rewrite Hq.
Qed.

Lemma offer_loop_app (pre post : list regex) (t : pystr) :
  offer_loop (pre ++ post) t = offer_loop post (offer_loop pre t).
Proof. apply foldl_app. Qed.

Lemma substring_refl (t : pystr) : substring_of t t.
Proof. exists [], []. by rewrite app_nil_r. Qed.

Lemma substring_trans (r s t : pystr) :
  substring_of r s -> substring_of s t -> substring_of r t.
Proof.
  intros (p1 & q1 & ->) (p2 & q2 & ->).
  exists (p2 ++ p1), (q1 ++ q2). by rewrite <- !app_assoc.
Qed.

Lemma substring_length (r t : pystr) : substring_of r t -> length r ≤ length t.
Proof. intros (p & q & ->). rewrite !length_app. lia. Qed.

Lemma substring_full (r t : pystr) :
  substring_of r t -> length t ≤ length r -> r = t.
Proof.
  intros (p & q & ->) H. rewrite !length_app in H.
  destruct p; [|simpl in H; lia]. destruct q; [|simpl in H; lia].
  by rewrite app_nil_r.
Qed.

Lemma group0_substring (t : pystr) (m : nat * nat) : substring_of (group0 t m) t.
Proof.
  exists (take (fst m) t), (drop (snd m) (drop (fst m) t)).
  unfold group0. by rewrite !take_drop.
Qed.

Lemma offer_step_substring (t : pystr) q : substring_of (offer_step t q) t.
Proof.
  unfold offer_step. destruct (re_search true q t);
    [apply group0_substring|apply substring_refl].
Qed.

(** The loop only narrows the text. *)
Lemma offer_loop_substring (pats : list regex) (t : pystr) :
  substring_of (offer_loop pats t) t.
Proof.
  revert t. induction pats as [|q pats IH]; intros t; [apply substring_refl|].
  rewrite offer_loop_cons.
  eapply substring_trans; [apply IH|apply offer_step_substring].
Qed.

(** The loop returns the text it is given exactly when every pattern
    leaves that text as it is. *)
Lemma offer_loop_fixed (pats : list regex) (t : pystr) :
  offer_loop pats t = t <-> Forall (fun q => offer_step t q = t) pats.
Proof.
  induction pats as [|q pats IH]; [by split|].
  rewrite offer_loop_cons. split.
  - intros H.
    assert (offer_step t q = t) as E.
    { apply substring_full; [apply offer_step_substring|].
      rewrite <- H at 1. apply substring_length, offer_loop_substring. }
    constructor; [done|]. apply IH. by rewrite E in H.
  - intros H. inversion H as [|? ? E H']; subst. rewrite E. by apply IH.
Qed.

End OfferLoopFacts.

(** C2, as the code has it.  The patterns are tried in order, each on the
    current text.  The first pattern that matches the sanitized text
    replaces it by its match; the patterns after it are then tried, in
    order, on that match and no longer on the rest of the text, and each
    that matches replaces the text again.  So the result of the loop is a
    contiguous part of the first match, and it is the first match itself
    exactly when every later pattern leaves the first match as it is (it
    does not match inside it, or its match is the whole of it); in
    particular when no later pattern matches inside it. *)
Theorem offer_loop_first_match {U : UnicodeData} (t : pystr)
    (pre : list regex) (p : regex) (post : list regex) (m : nat * nat) :
  OFFER_SHAPES = pre ++ p :: post ->
  Forall (fun q => re_search true q t = None) pre ->
  re_search true p t = Some m ->
  offer_loop OFFER_SHAPES t = offer_loop post (group0 t m) /\
  substring_of (offer_loop OFFER_SHAPES t) (group0 t m) /\
  (offer_loop OFFER_SHAPES t = group0 t m <->
   Forall (fun q => match re_search true q (group0 t m) with
                    | Some m' => group0 (group0 t m) m' = group0 t m
                    | None => True
                    end) post) /\
  (Forall (fun q => re_search true q (group0 t m) = None) post ->
   offer_loop OFFER_SHAPES t = group0 t m).
Proof.
  intros -> Hpre Hp.
  assert (offer_loop (pre ++ p :: post) t = offer_loop post (group0 t m)) as E.
  { rewrite offer_loop_app, (offer_loop_no_match pre t Hpre).
    rewrite offer_loop_cons. unfold offer_step. by rewrite Hp. }
  split; [done|]. rewrite E.
  split; [apply offer_loop_substring|].
  split; [|intros Hpost; by apply offer_loop_no_match].
  rewrite offer_loop_fixed. apply Forall_iff. intros q. unfold offer_step.
  by destruct (re_search true q (group0 t m)).
Qed.

Lemma offer_loop_first_match_witness :
  @offer_loop ascii_tables OFFER_SHAPES (py "free lifetime warranty") =
  @offer_loop ascii_tables (drop 3 OFFER_SHAPES) (py "free lifetime warranty").
Proof.
  refine (proj1 (@offer_loop_first_match ascii_tables (py "free lifetime warranty")
                   (take 2 OFFER_SHAPES)
                   (seqs [WordB; lit "free"; plus CSpace; plus CWord;
                          Opt (seqs [plus CSpace; plus CWord]); WordB])
                   (drop 3 OFFER_SHAPES) (0, 22) _ _ _)).
  - reflexivity.
  - repeat constructor; vm_compute; reflexivity.
  - vm_compute; reflexivity.
Defined.

(** C2, as stated, fails on "free lifetime warranty".  The sanitizer
    leaves the text as it is; the first two patterns do not match it; the
    third matches all of it; yet the result is the match of the seventh
    pattern inside that match. *)
Lemma later_offer_pattern_applied :
  let t := py "free lifetime warranty" in
  @strip_contact_and_cta ascii_tables t = t /\
  Forall (fun q => @re_search ascii_tables true q t = None) (take 2 OFFER_SHAPES) /\
  (fun p => group0 t <$> @re_search ascii_tables true p t) <$> OFFER_SHAPES !! 2
    = Some (Some t) /\
  @offer_loop ascii_tables OFFER_SHAPES t = py "lifetime warranty" /\
  @compress_to_offer ascii_tables t = py "lifetime warranty" /\
  @compress_to_offer ascii_tables t <> t.
Proof.
  repeat split; try (vm_compute; reflexivity).
  - repeat constructor; vm_compute; reflexivity.
  - vm_compute. discriminate.
Qed.

(** The same evaluation does not depend on the character tables. *)
Lemma any_tables_offer_cascade {U : UnicodeData} :
  compress_to_offer (py "free lifetime warranty") = py "lifetime warranty".
Proof. by vm_compute. Qed.

(** ** The sentence matcher: [find_sentences] *)

Section FindFacts.
Context {U : UnicodeData}.

Lemma find_loop_count rx max_items (sentences hits : list pystr) :
  (Z.of_nat (length hits) < max_items)%Z ->
  (Z.of_nat (length (find_loop rx max_items sentences hits)) ≤ max_items)%Z.
Proof.
  revert hits. induction sentences as [|s rest IH]; intros hits Hlt; simpl; [lia|].
  destruct (length (strip s) <? 18); [by apply IH|].
  set (hits' := if existsb _ rx then _ else hits).
  assert (length hits' ≤ S (length hits)) as Hle.
  { subst hits'. destruct (existsb _ rx); [|lia].
    destruct (truthy _); [|lia]. rewrite length_app. simpl. lia. }
  destruct (Z.leb_spec max_items (Z.of_nat (length hits'))); [lia|].
  by apply IH.
Qed.

Lemma find_loop_entries rx max_items (sentences hits : list pystr) e :
  In e (find_loop rx max_items sentences hits) ->
  In e hits \/ exists s, In s sentences /\ hit_of rx s e.
Proof.
  revert hits. induction sentences as [|s rest IH]; intros hits; simpl; [by left|].
  destruct (Nat.ltb_spec (length (strip s)) 18) as [Hshort|Hlong].
  { intros H. apply IH in H as [H|(s' & Hs' & H)]; [by left|].
    right. exists s'. split; [by right|done]. }
  set (hits' := if existsb _ rx then _ else hits).
  assert (In e hits' -> In e hits \/ hit_of rx s e) as Hstep.
  { subst hits'. destruct (existsb _ rx) eqn:Ex; [|by left].
    destruct (truthy _) eqn:Et; [|by left].
    intros H. apply in_app_iff in H as [H|[<-|[]]]; [by left|].
    right. repeat split; try done. by apply truthy_true. }
  assert (In e hits' -> In e hits \/ exists s', In s' (s :: rest) /\ hit_of rx s' e)
    as Hstep'.
  { intros H. apply Hstep in H as [H|H]; [by left|].
    right. exists s. split; [by left|done]. }
  destruct (max_items <=? Z.of_nat (length hits'))%Z; [done|].
  intros H. apply IH in H as [H|(s' & Hs' & H)]; [by apply Hstep'|].
  right. exists s'. split; [by right|done].
Qed.

(** Without any condition on the cap: the loop is left after the first
    sentence it examines once the cap is reached, so a cap below one
    lets one entry through. *)
Lemma find_loop_count_any rx max_items (sentences hits : list pystr) :
  (Z.of_nat (length hits) < Z.max 1 max_items)%Z ->
  (Z.of_nat (length (find_loop rx max_items sentences hits)) ≤ Z.max 1 max_items)%Z.
Proof.
  revert hits. induction sentences as [|s rest IH]; intros hits Hlt; simpl; [lia|].
  destruct (length (strip s) <? 18); [by apply IH|].
  set (hits' := if existsb _ rx then _ else hits).
  assert (length hits' ≤ S (length hits)) as Hle.
  { subst hits'. destruct (existsb _ rx); [|lia].
    destruct (truthy _); [|lia]. rewrite length_app. simpl. lia. }
  destruct (Z.leb_spec max_items (Z.of_nat (length hits'))); [lia|].
  apply IH. lia.
Qed.

End FindFacts.

(** C4, as the code has it.  For every text, every pattern list and
    every cap, every entry of the result is not empty, has at most 240
    characters and is the sanitized form (cut to 240 characters) of a
    sentence of the text that has at least 18 characters before it is
    sanitized and does not sanitize to the empty string.  The result has
    at most [max_items] entries when [max_items] is at least one, and at
    most one entry otherwise: at most max(1, [max_items]) in all. *)
Theorem find_sentences_capped {U : UnicodeData} (text : pystr)
    (patterns : list regex) (max_items : Z) :
  (Z.of_nat (length (find_sentences text patterns max_items)) ≤ Z.max 1 max_items)%Z /\
  ((1 ≤ max_items)%Z ->
   (Z.of_nat (length (find_sentences text patterns max_items)) ≤ max_items)%Z) /\
  Forall (fun e => e <> [] /\ length e ≤ 240 /\
            exists s, In s (re_split false SENTENCE_END text) /\
                      hit_of patterns s e)
         (find_sentences text patterns max_items).
Proof.
  assert (Z.of_nat (length (find_sentences text patterns max_items))
          ≤ Z.max 1 max_items)%Z as Hcount.
  { unfold find_sentences. destruct (negb (truthy text)); [simpl; lia|].
    apply find_loop_count_any. simpl. lia. }
  split; [done|]. split; [lia|].
  unfold find_sentences. destruct (negb (truthy text)); [constructor|].
  apply List.Forall_forall. intros e He.
  apply find_loop_entries in He as [[]|(s & Hs & Hhit)].
  pose proof Hhit as (_ & _ & Hne & ->).
  repeat split.
  - destruct (strip_contact_and_cta (strip s)); [done|]. simpl. discriminate.
  - rewrite length_take. lia.
  - by exists s.
Qed.

(** C4, as stated for every cap, fails for the cap 0: the cap is tested
    after a sentence is appended, so the first hit is returned. *)
Lemma find_sentences_zero_cap :
  let text := py "We have a special deal on every roof this month!" in
  @find_sentences ascii_tables text OFFER_PATTERNS 0 = [text] /\
  ~ (Z.of_nat (length (@find_sentences ascii_tables text OFFER_PATTERNS 0)) ≤ 0)%Z.
Proof.
  split; [vm_compute; reflexivity|]. vm_compute. intros H. by apply H.
Qed.

Lemma any_tables_zero_cap {U : UnicodeData} :
  length (find_sentences (py "We have a special deal on every roof this month!")
            OFFER_PATTERNS 0) = 1.
Proof. by vm_compute. Qed.

(** ** The crawler: [scrape_site_bundle] *)

Section CrawlFacts.
Context {U : UnicodeData} {W : Web}.

(** One turn of the loop issues at most one request, and collects at most
    one page, which is the page it requested. *)
Lemma visit_effect website path st log :
  (pages_checked (fst (visit website path st log)) = pages_checked st /\
   (snd (visit website path st log) = log \/
    exists url, snd (visit website path st log) = log ++ [url])) \/
  (exists url,
     pages_checked (fst (visit website path st log)) = pages_checked st ++ [url] /\
     snd (visit website path st log) = log ++ [url]).
Proof.
  unfold visit, http_get.
  destruct (urljoin _ path) as [url|]; [|by left; auto].
  destruct (session_get log url) as [|status html]; [by left; eauto|].
  destruct (400 <=? status)%Z; [by left; eauto|].
  destruct (BeautifulSoup html) as [sp|]; [|by left; eauto].
  destruct (extract_visible_text html) as [text|]; [|by left; eauto].
  destruct (length text <? 200); [by left; eauto|].
  right. by exists url.
Qed.

Lemma crawl_cons website path rest st log :
  crawl website (path :: rest) st log =
  if MAX_SITE_PAGES <=? length (pages_checked st) then (st, log)
  else crawl website rest (fst (visit website path st log))
                          (snd (visit website path st log)).
Proof. cbn [crawl]. by destruct (visit website path st log). Qed.

Lemma crawl_budget website paths st log :
  length (pages_checked st) ≤ MAX_SITE_PAGES ->
  (forall u, In u (pages_checked st) -> In u log) ->
  length (pages_checked (fst (crawl website paths st log))) ≤ MAX_SITE_PAGES /\
  length (snd (crawl website paths st log)) ≤ length log + length paths /\
  (forall u, In u (pages_checked (fst (crawl website paths st log))) ->
             In u (snd (crawl website paths st log))).
Proof.
  revert st log. induction paths as [|path rest IH]; intros st log Hp Hin.
  { simpl. split; [done|split; [lia|done]]. }
  rewrite crawl_cons.
  destruct (Nat.leb_spec MAX_SITE_PAGES (length (pages_checked st))) as [Hfull|Hroom].
  { simpl. split; [done|split; [lia|done]]. }
  pose proof (visit_effect website path st log) as Hv.
  set (st1 := fst (visit website path st log)) in *.
  set (log1 := snd (visit website path st log)) in *.
  assert (length (pages_checked st1) ≤ MAX_SITE_PAGES /\
          length log1 ≤ S (length log) /\
          (forall u, In u (pages_checked st1) -> In u log1)) as (Hp1 & Hl1 & Hin1).
  { destruct Hv as [[-> [-> | [url ->]]] | (url & -> & ->)].
    - split; [done|split; [lia|done]].
    - rewrite length_app. simpl. split; [done|split; [lia|]].
      intros u Hu. apply in_app_iff. left. by apply Hin.
    - rewrite !length_app. simpl. split; [lia|split; [lia|]].
      intros u Hu. apply in_app_iff in Hu as [Hu|Hu]; apply in_app_iff;
        [left; by apply Hin|by right]. }
  destruct (IH st1 log1 Hp1 Hin1) as (? & ? & ?).
  simpl length. split; [done|split; [lia|done]].
Qed.

Lemma bundle_status st : bundle st !! "status" = Some (VStr (py "ok")).
Proof. unfold bundle. cbv zeta. apply lookup_insert_eq. Qed.





End CrawlFacts.



(** C7. When the website normalizes to the empty string, the result is
    the dictionary with the single entry status = missing, and no request
    is issued. *)
Theorem scrape_missing {U : UnicodeData} {W : Web} (website : pystr) :
  normalize_url website = [] ->
  scrape_site_bundle website = ({[ "status" := VStr (py "missing") ]}, []).
Proof. intros H. unfold scrape_site_bundle. by rewrite H. Qed.

Lemma scrape_missing_witness :
  @scrape_site_bundle ascii_tables offline_web (py "  ")
  = ({[ "status" := VStr (py "missing") ]}, []).
Proof.
  apply (@scrape_missing ascii_tables offline_web (py "  ")).
  vm_compute. reflexivity.
Defined.

(** C10. When the returned dictionary has the status missing or the
    status unreachable, status is its only key. *)
Theorem failure_bundle_only_status {U : UnicodeData} {W : Web} (website : pystr) :
  fst (scrape_site_bundle website) !! "status" = Some (VStr (py "missing")) \/
  fst (scrape_site_bundle website) !! "status" = Some (VStr (py "unreachable")) ->
  dom (fst (scrape_site_bundle website)) = {[ "status" ]} /\
  forall k, k <> "status" -> fst (scrape_site_bundle website) !! k = None.
Proof.
  unfold scrape_site_bundle.
  destruct (negb (truthy (normalize_url website))).
  { intros _. simpl. split; [apply dom_singleton_L|].
    intros k Hk. by apply lookup_singleton_ne. }
  destruct (crawl (normalize_url website) CANDIDATE_PATHS crawl_init []) as [st log].
  destruct (negb (truthy (texts st))).
  { intros _. simpl. split; [apply dom_singleton_L|].
    intros k Hk. by apply lookup_singleton_ne. }
  simpl. rewrite bundle_status. intros [H|H]; discriminate H.
Qed.

Lemma failure_bundle_only_status_witness :
  dom (fst (@scrape_site_bundle ascii_tables offline_web (py "example.com")))
  = {[ "status" ]}.
Proof.
  refine (proj1 (@failure_bundle_only_status ascii_tables offline_web
                   (py "example.com") _)).
  right. vm_compute. reflexivity.
Defined.

(** ** The crawler on three sample sites *)

(** A site with full pages: the crawl stops after the fourth page. *)
Example crawl_static_site :
  let '(d, log) := @scrape_site_bundle ascii_tables static_web (py "acme.example/") in
  d !! "status" = Some (VStr (py "ok")) /\
  d !! "pagesChecked" = Some (VList log) /\
  log = map py ["https://acme.example/"; "https://acme.example/specials";
                "https://acme.example/offers"; "https://acme.example/deals"] /\
  d !! "offers" = Some (VList [py "20% off"; py "lifetime warranty"]) /\
  d !! "title" = Some (VStr (py "Acme Roofing")).
Proof. vm_compute. repeat split. Qed.

(** A site with thin pages: every candidate path is requested, every
    request is answered with status 200, no page is collected. *)
Example crawl_thin_site :
  let '(d, log) := @scrape_site_bundle ascii_tables thin_web (py "acme.example") in
  d = {[ "status" := VStr (py "unreachable") ]} /\ length log = 12.
Proof. vm_compute. repeat split. Qed.

(** A site that cannot be reached: every candidate path is tried once. *)
Example crawl_offline_site :
  let '(d, log) := @scrape_site_bundle ascii_tables offline_web (py "acme.example") in
  d = {[ "status" := VStr (py "unreachable") ]} /\ length log = 12.
Proof. vm_compute. repeat split. Qed.

(** * Further properties of the helpers *)

(** ** [str.strip] and [clean_str] *)

Lemma last_rev (s : pystr) : last (rev s) = head s.
Proof. destruct s as [|c s]; [done|]. simpl. apply last_snoc. Qed.

Lemma head_rev (s : pystr) : head (rev s) = last s.
Proof. by rewrite <- last_rev, rev_involutive. Qed.

Lemma lstrip_suffix (s : pystr) : exists pre, s = pre ++ lstrip s /\ blank pre.
Proof.
  induction s as [|c s (pre & E & B)]; simpl.
  - exists []. split; [done|constructor].
  - destruct (is_space c) eqn:Hc.
    + exists (c :: pre). split; [simpl; by f_equal|by constructor].
    + exists []. split; [done|constructor].
Qed.

Lemma lstrip_head (s : pystr) : space_at (head (lstrip s)) = false.
Proof.
  induction s as [|c s IH]; simpl; [done|].
  destruct (is_space c) eqn:Hc; [done|]. simpl. done.
Qed.

Lemma lstrip_fixed (s : pystr) : space_at (head s) = false -> lstrip s = s.
Proof. destruct s as [|c s]; simpl; [done|]. by intros ->. Qed.

Lemma rstrip_prefix (s : pystr) : exists post, s = rstrip s ++ post /\ blank post.
Proof.
  unfold rstrip. destruct (lstrip_suffix (rev s)) as (pre & E & B).
  exists (rev pre). split.
  - rewrite <- rev_app_distr, <- E. by rewrite rev_involutive.
  - by apply Forall_rev.
Qed.

Lemma rstrip_last (s : pystr) : space_at (last (rstrip s)) = false.
Proof. unfold rstrip. rewrite last_rev. apply lstrip_head. Qed.

Lemma rstrip_fixed (s : pystr) : space_at (last s) = false -> rstrip s = s.
Proof.
  intros H. unfold rstrip. rewrite lstrip_fixed; [apply rev_involutive|].
  by rewrite head_rev.
Qed.

Lemma rstrip_head (s : pystr) :
  space_at (head s) = false -> space_at (head (rstrip s)) = false.
Proof.
  intros H. destruct (rstrip_prefix s) as (post & E & _).
  destruct (rstrip s) as [|c r]; [done|]. rewrite E in H. exact H.
Qed.

Lemma strip_trimmed (s : pystr) : trimmed (strip s).
Proof.
  unfold strip. split; [|apply rstrip_last].
  apply rstrip_head, lstrip_head.
Qed.

Lemma strip_fixed (s : pystr) : trimmed s -> strip s = s.
Proof.
  intros [Hh Hl]. unfold strip. rewrite lstrip_fixed by done. by apply rstrip_fixed.
Qed.

Lemma strip_idempotent (s : pystr) : strip (strip s) = strip s.
Proof. apply strip_fixed, strip_trimmed. Qed.

Lemma lstrip_blank (s : pystr) : blank s -> lstrip s = [].
Proof.
  induction 1 as [|c s Hc _ IH]; simpl; [done|]. by rewrite Hc.
Qed.

Lemma strip_nil_blank (s : pystr) : strip s = [] <-> blank s.
Proof.
  split.
  - intros H. destruct (lstrip_suffix s) as (pre & E & B).
    destruct (rstrip_prefix (lstrip s)) as (post & E' & B').
    fold (strip s) in E'. rewrite H in E'. simpl in E'.
    rewrite E, E'. by apply Forall_app.
  - intros H. unfold strip. by rewrite lstrip_blank.
Qed.

(** X1. [clean_str] returns a string without white space at either end,
    and cleaning a cleaned string changes nothing; [None] and blank
    strings give the empty string. *)
Theorem clean_str_trimmed_idempotent (x : option pystr) :
  trimmed (clean_str x) /\
  clean_str (Some (clean_str x)) = clean_str x /\
  (clean_str x = [] <-> x = None \/ exists s, x = Some s /\ blank s).
Proof.
  destruct x as [s|]; simpl.
  - split; [apply strip_trimmed|]. split; [apply strip_idempotent|].
    rewrite strip_nil_blank. split; [by right; exists s|].
    intros [H|(s' & [= <-] & H)]; done.
  - split; [done|]. split; [done|]. split; [by left|done].
Qed.

(** ** [normalize_url] *)

Lemma startswith_app (p s : pystr) : startswith p (p ++ s) = true.
Proof. induction p as [|a p IH]; simpl; [done|]. by rewrite N.eqb_refl. Qed.

Section UrlFacts.
Context {U : UnicodeData}.

Lemma normalize_url_cases (url : pystr) :
  (strip url = [] /\ normalize_url url = []) \/
  (strip url <> [] /\
   (startswith (py "http://") (strip url) || startswith (py "https://") (strip url)) = true /\
   normalize_url url = strip url) \/
  (strip url <> [] /\
   (startswith (py "http://") (strip url) || startswith (py "https://") (strip url)) = false /\
   normalize_url url = py "https://" ++ strip url).
Proof.
  unfold normalize_url, clean_str.
  destruct (strip url) as [|c s] eqn:E; [by left|]. right.
  change (negb (truthy (c :: s))) with false. cbv iota.
  destruct (startswith (py "http://") (c :: s) || startswith (py "https://") (c :: s));
    [left|right]; (split; [done|split; [done|reflexivity]]).
Qed.

Lemma normalize_url_trimmed (url : pystr) : trimmed (normalize_url url).
Proof.
  destruct (normalize_url_cases url) as [[_ ->]|[(_ & _ & ->)|(Hne & _ & ->)]].
  - done.
  - apply strip_trimmed.
  - destruct (strip_trimmed url) as [_ Hl]. split; [done|].
    destruct (strip url) as [|c s]; [done|].
    by rewrite last_app_cons.
Qed.

Lemma normalize_url_scheme (url : pystr) :
  normalize_url url <> [] ->
  (startswith (py "http://") (normalize_url url)
   || startswith (py "https://") (normalize_url url)) = true.
Proof.
  destruct (normalize_url_cases url) as [[_ ->]|[(_ & H & ->)|(_ & _ & ->)]];
    [done|done|].
  intros _. rewrite (startswith_app (py "https://")). apply orb_true_r.
Qed.

End UrlFacts.

Lemma normalize_url_fixed {U : UnicodeData} (url : pystr) :
  normalize_url (normalize_url url) = normalize_url url.
Proof.
  pose proof (normalize_url_trimmed url) as Ht.
  pose proof (normalize_url_scheme url) as Hs.
  destruct (normalize_url url) as [|c s] eqn:E; [done|].
  unfold normalize_url at 1. unfold clean_str.
  rewrite (strip_fixed _ Ht). change (negb (truthy (c :: s))) with false. cbv iota.
  by rewrite Hs.
Qed.

Lemma normalize_url_nil {U : UnicodeData} (url : pystr) :
  normalize_url url = [] <-> blank url.
Proof.
  rewrite <- strip_nil_blank.
  destruct (normalize_url_cases url) as [[E ->]|[(Hne & _ & ->)|(Hne & _ & ->)]].
  - by split.
  - done.
  - split; [discriminate|]. intros H. by rewrite H in Hne.
Qed.

(** X2. [normalize_url] is idempotent: a normalized URL is left as it
    is. *)
Theorem normalize_url_idempotent {U : UnicodeData} (url : pystr) :
  normalize_url (normalize_url url) = normalize_url url.
Proof. apply normalize_url_fixed. Qed.

(** X3. [normalize_url] returns the empty string exactly for a blank
    input (empty or white space only); any other result has no white space
    at either end and starts with http:// or https://, and is the trimmed
    input itself or the trimmed input behind https://. *)
Theorem normalize_url_shape {U : UnicodeData} (url : pystr) :
  (normalize_url url = [] <-> blank url) /\
  trimmed (normalize_url url) /\
  (normalize_url url = [] \/
   (startswith (py "http://") (normalize_url url)
    || startswith (py "https://") (normalize_url url)) = true /\
   (normalize_url url = strip url \/ normalize_url url = py "https://" ++ strip url)).
Proof.
  split; [|split; [apply normalize_url_trimmed|]].
  - apply normalize_url_nil.
  - pose proof (normalize_url_scheme url) as Hs.
    destruct (normalize_url_cases url) as [[_ E]|[(Hne & _ & E)|(_ & _ & E)]].
    + by left.
    + right. split; [|by left]. apply Hs. by rewrite E.
    + right. split; [|by right]. apply Hs. by rewrite E.
Qed.

(** ** [normalize_phone] *)

Section PhoneFacts.
Context {U : UnicodeData}.

Lemma normalize_phone_digits (phone : pystr) :
  normalize_phone phone =
    let digits := List.filter is_digit phone in
    if length digits =? 10 then py "+1" ++ digits
    else if (length digits =? 11) && startswith (py "1") digits
         then py "+" ++ digits
         else digits.
Proof.
  unfold normalize_phone, clean_str. by rewrite re_sub_non_digits, filter_strip.
Qed.

Lemma filter_digits_Forall (s : pystr) :
  Forall (fun c => is_digit c = true) (List.filter is_digit s).
Proof.
  apply List.Forall_forall. intros c Hc. by apply List.filter_In in Hc as [_ ?].
Qed.

Lemma filter_digits_fixed (s : pystr) :
  Forall (fun c => is_digit c = true) s -> List.filter is_digit s = s.
Proof.
  induction 1 as [|c s Hc _ IH]; simpl; [done|]. by rewrite Hc, IH.
Qed.

Lemma startswith_one (d : pystr) :
  startswith (py "1") d = true -> exists d', d = ch "1" :: d'.
Proof.
  destruct d as [|c d]; [done|]. intros H.
  change (startswith (py "1") (c :: d)) with ((ch "1" =? c)%N && true) in H.
  apply andb_prop in H as [E _]. apply N.eqb_eq in E. subst.
  by exists d.
Qed.

End PhoneFacts.

(** X4. The result of [normalize_phone] is a string of digits, or +1
    followed by exactly ten digits. *)
Theorem normalize_phone_shape {U : UnicodeData} (phone : pystr) :
  Forall (fun c => is_digit c = true) (normalize_phone phone) \/
  exists d, normalize_phone phone = py "+1" ++ d /\ length d = 10 /\
            Forall (fun c => is_digit c = true) d.
Proof.
  rewrite normalize_phone_digits. cbv zeta.
  pose proof (filter_digits_Forall phone) as Hd.
  set (digits := List.filter is_digit phone) in *.
  destruct (Nat.eqb_spec (length digits) 10) as [H10|_].
  { right. by exists digits. }
  destruct (Nat.eqb_spec (length digits) 11) as [H11|_];
    rewrite ?andb_true_l, ?andb_false_l; [|left; exact Hd].
  destruct (startswith (py "1") digits) eqn:H1; [|left; exact Hd].
  apply startswith_one in H1 as [d' E]. right. exists d'.
  rewrite E in *. simpl in H11. inversion Hd; subst.
  split; [done|]. split; [lia|done].
Qed.

(** X5. [normalize_phone] is idempotent: a normalized number is left as
    it is. *)
Theorem normalize_phone_idempotent {U : UnicodeData} (phone : pystr) :
  normalize_phone (normalize_phone phone) = normalize_phone phone.
Proof.
  rewrite (normalize_phone_digits phone). cbv zeta.
  pose proof (filter_digits_Forall phone) as Hd.
  set (digits := List.filter is_digit phone) in *.
  assert (forall d : pystr, Forall (fun c => is_digit c = true) d ->
            List.filter is_digit (ch "+" :: d) = d) as Hplus.
  { intros d H. change (List.filter is_digit (ch "+" :: d))
      with (List.filter is_digit d). by apply filter_digits_fixed. }
  destruct (Nat.eqb_spec (length digits) 10) as [H10|N10].
  { rewrite normalize_phone_digits. cbv zeta.
    change (py "+1" ++ digits) with (ch "+" :: ch "1" :: digits).
    rewrite Hplus by (by constructor).
    simpl length. rewrite H10. done. }
  destruct (Nat.eqb_spec (length digits) 11) as [H11|N11];
    rewrite ?andb_true_l, ?andb_false_l.
  - destruct (startswith (py "1") digits) eqn:H1.
    + rewrite normalize_phone_digits. cbv zeta.
      change (py "+" ++ digits) with (ch "+" :: digits).
      rewrite Hplus by done. rewrite H11, H1. done.
    + rewrite normalize_phone_digits. cbv zeta.
      rewrite filter_digits_fixed by done. rewrite H11, H1. done.
  - rewrite normalize_phone_digits. cbv zeta.
    rewrite filter_digits_fixed by done.
    destruct (Nat.eqb_spec (length digits) 10); [done|].
    destruct (Nat.eqb_spec (length digits) 11); [done|]. done.
Qed.

(** ** More on substitution *)

Section SubFacts.
Context {U : UnicodeData}.

(** A substitution only writes characters of the subject and of the
    replacement. *)
Lemma sub_scan_Forall (P : N -> Prop) ic r repl prev (s : pystr) skip :
  Forall P repl -> Forall P s -> Forall P (sub_scan ic r repl prev s skip).
Proof.
  intros Hrepl Hs. revert prev skip.
  induction Hs as [|c s Hc Hs IH]; intros prev skip.
  - destruct skip; simpl; [|constructor].
    destruct (first_match _) as [[|n]|]; simpl; [|by rewrite app_nil_r|constructor].
    destruct (first_advancing _); by rewrite app_nil_r.
  - destruct skip as [|k]; simpl; [|apply IH].
    destruct (first_match _) as [[|n]|]; simpl.
    + apply Forall_app. split; [done|].
      destruct (first_advancing _) as [n|].
      * apply Forall_app. split; [done|apply IH].
      * constructor; [done|apply IH].
    + apply Forall_app. split; [done|apply IH].
    + constructor; [done|apply IH].
Qed.

Lemma re_sub_Forall (P : N -> Prop) ic r repl (s : pystr) :
  Forall P repl -> Forall P s -> Forall P (re_sub ic r repl s).
Proof. apply sub_scan_Forall. Qed.

(** Replacing each run of a character set by at most one character does
    not make the string longer. *)
Lemma sub_scan_plus_length ic cs repl prev (s : pystr) skip :
  length repl ≤ 1 ->
  length (sub_scan ic (plus cs) repl prev s skip) ≤ length s.
Proof.
  intros Hrepl. revert prev skip. induction s as [|c s IH]; intros prev skip.
  - destruct skip; simpl; lia.
  - destruct skip as [|k].
    + rewrite sub_scan_plus_cons. destruct (in_cset ic cs c).
      * rewrite length_app. simpl.
        specialize (IH (Some c) (span_len (in_cset ic cs) None s)). lia.
      * simpl. specialize (IH (Some c) 0). lia.
    + rewrite sub_scan_skip. simpl. specialize (IH (Some c) k). lia.
Qed.

End SubFacts.

(** ** More on the sanitizer *)

Section SanitizerShape.
Context {U : UnicodeData}.

Lemma delete_all_length (pats : list regex) (t : pystr) :
  length (foldl (fun t pat => re_sub true pat [] t) t pats) ≤ length t.
Proof.
  revert t. induction pats as [|p pats IH]; intros t; simpl; [done|].
  etransitivity; [apply IH|]. apply re_sub_delete_length.
Qed.

Lemma space_plain : is_space (ch " ") = true /\ is_separator (ch " ") = false.
Proof. done. Qed.

Lemma collapse_plain_spaces (s : pystr) :
  plain_spaces (re_sub false SPACES (py " ") s).
Proof.
  apply sub_scan_plus_Forall; [by repeat constructor| |lia].
  intros x Hx Hs. simpl in Hx. congruence.
Qed.

Lemma Forall_rstrip (P : N -> Prop) (s : pystr) : Forall P s -> Forall P (rstrip s).
Proof. intros H. unfold rstrip. by apply Forall_rev, Forall_lstrip, Forall_rev. Qed.

Lemma sanitizer_plain_spaces (text : pystr) :
  plain_spaces (strip_contact_and_cta text).
Proof.
  unfold strip_contact_and_cta.
  destruct (negb (truthy _)); [constructor|].
  apply Forall_strip, re_sub_Forall; [by repeat constructor|].
  apply Forall_strip, collapse_plain_spaces.
Qed.

Lemma sanitizer_trimmed (text : pystr) : trimmed (strip_contact_and_cta text).
Proof.
  unfold strip_contact_and_cta.
  destruct (negb (truthy _)); [done|]. apply strip_trimmed.
Qed.

Lemma sanitizer_length (text : pystr) :
  length (strip_contact_and_cta text) ≤ length text.
Proof.
  unfold strip_contact_and_cta, clean_str.
  destruct (negb (truthy _)); [simpl; lia|].
  etransitivity; [apply strip_length|].
  etransitivity; [apply sub_scan_plus_length; simpl; lia|].
  etransitivity; [apply strip_length|].
  etransitivity; [apply sub_scan_plus_length; simpl; lia|].
  etransitivity; [apply delete_all_length|].
  etransitivity; [apply re_sub_delete_length|].
  etransitivity; [apply re_sub_delete_length|].
  apply strip_length.
Qed.

End SanitizerShape.

(** X6. The sanitizer never returns a string longer than its input. *)
Theorem sanitizer_never_longer {U : UnicodeData} (text : pystr) :
  length (strip_contact_and_cta text) ≤ length text.
Proof. apply sanitizer_length. Qed.

(** X7. The output of the sanitizer has no white space at either end, its
    only white space character is the plain space (tabs, line breaks and
    the other Unicode spaces are gone), and it contains no pipe and no
    bullet. *)
Theorem sanitizer_character_profile {U : UnicodeData} (text : pystr) :
  trimmed (strip_contact_and_cta text) /\
  plain_spaces (strip_contact_and_cta text) /\
  Forall (fun c => is_separator c = false) (strip_contact_and_cta text).
Proof.
  split; [apply sanitizer_trimmed|].
  split; [apply sanitizer_plain_spaces|apply sanitizer_no_separator].
Qed.

(** ** Runs of white space *)

Section RunFacts.
Context {U : UnicodeData}.

Lemma has_space_run_cons c (t : pystr) :
  has_space_run (c :: t) = (is_space c && space_at (head t)) || has_space_run t.
Proof. destruct t; simpl; [by rewrite andb_false_r|done]. Qed.

Lemma no_run_app (l1 l2 : pystr) :
  has_space_run (l1 ++ l2) = false ->
  has_space_run l1 = false /\ has_space_run l2 = false.
Proof.
  induction l1 as [|c l1 IH]; [done|].
  rewrite <- app_comm_cons, !has_space_run_cons.
  intros H. apply orb_false_elim in H as [H1 H2].
  destruct (IH H2) as [Ha Hb]. split; [|done].
  rewrite Ha, orb_false_r.
  destruct l1 as [|d l1]; [by rewrite andb_false_r|done].
Qed.

Lemma no_run_prefix (l1 l2 : pystr) :
  l1 `prefix_of` l2 -> has_space_run l2 = false -> has_space_run l1 = false.
Proof. intros [k ->] H. by apply no_run_app in H as [? _]. Qed.

Lemma no_run_lstrip (s : pystr) :
  has_space_run s = false -> has_space_run (lstrip s) = false.
Proof.
  intros H. destruct (lstrip_suffix s) as (pre & E & _).
  rewrite E in H. by apply no_run_app in H as [_ ?].
Qed.

Lemma rstrip_prefix_of (s : pystr) : rstrip s `prefix_of` s.
Proof. destruct (rstrip_prefix s) as (post & E & _). by exists post. Qed.

Lemma no_run_strip (s : pystr) :
  has_space_run s = false -> has_space_run (strip s) = false.
Proof.
  intros H. unfold strip.
  eapply no_run_prefix; [apply rstrip_prefix_of|]. by apply no_run_lstrip.
Qed.

(** Collapsing: after [re.sub("\s+", " ", s)] no two white space
    characters are adjacent. *)
Lemma collapse_scan (s : pystr) : forall prev,
  has_space_run (sub_scan false (plus CSpace) (py " ") prev s 0) = false /\
  has_space_run (sub_scan false (plus CSpace) (py " ") prev s
                   (span_len (in_cset false CSpace) None s)) = false /\
  space_at (head (sub_scan false (plus CSpace) (py " ") prev s
                    (span_len (in_cset false CSpace) None s))) = false.
Proof.
  induction s as [|c s IH]; intros prev; [done|].
  destruct (IH (Some c)) as (B & A1 & A2).
  assert (has_space_run (sub_scan false (plus CSpace) (py " ") prev (c :: s) 0) = false
          /\ (is_space c = false ->
              space_at (head (sub_scan false (plus CSpace) (py " ") prev (c :: s) 0))
              = false)) as [HB Hhead].
  { rewrite sub_scan_plus_cons. change (in_cset false CSpace c) with (is_space c).
    destruct (is_space c) eqn:Hc.
    - split; [|done]. change (py " " ++ ?x) with (ch " " :: x).
      rewrite has_space_run_cons, A1, A2. done.
    - split; [|done]. rewrite has_space_run_cons, B, Hc. done. }
  split; [done|].
  rewrite span_len_cons. change (in_cset false CSpace c) with (is_space c).
  destruct (is_space c) eqn:Hc.
  - by rewrite sub_scan_skip.
  - split; [done|by apply Hhead].
Qed.

Lemma collapse_no_run (s : pystr) :
  has_space_run (re_sub false SPACES (py " ") s) = false.
Proof. apply (collapse_scan s None). Qed.

End RunFacts.

(** ** Cutting back to the last whole word *)

Section LastWordFacts.
Context {U : UnicodeData}.

Lemma sub_scan_cons_0 ic r repl prev c (s : pystr) :
  sub_scan ic r repl prev (c :: s) 0 =
  match first_match (rmatch ic r prev (c :: s)) with
  | Some (S n) => repl ++ sub_scan ic r repl (Some c) s n
  | Some 0 =>
      repl ++ match first_advancing (rmatch ic r prev (c :: s)) with
              | Some n => repl ++ sub_scan ic r repl (Some c) s (pred n)
              | None => c :: sub_scan ic r repl (Some c) s 0
              end
  | None => c :: sub_scan ic r repl (Some c) s 0
  end.
Proof. done. Qed.

Lemma matches_seq_inv ic a b prev (w rest : pystr) :
  matches ic (Seq a b) prev w rest ->
  exists w1 w2, w = w1 ++ w2 /\ matches ic a prev w1 (w2 ++ rest) /\
                matches ic b (last_before prev w1) w2 rest.
Proof. inversion 1; subst. eauto. Qed.

(** A match of "\s+\S*$" is not empty and ends at the end of the string
    or just before a final line feed. *)
Lemma last_word_match prev (s : pystr) n :
  In n (rmatch false LAST_WORD prev s) ->
  1 ≤ n ≤ length s /\ (drop n s = [] \/ drop n s = [10%N]).
Proof.
  intros H. apply rmatch_sound in H as [Hn M].
  apply matches_seq_inv in M as (w1 & w2 & E & M1 & M).
  apply matches_seq_inv in M as (w21 & w22 & -> & _ & M).
  apply matches_seq_inv in M as (w3 & w4 & -> & M3 & M4).
  inversion M1 as [| | | | | | | |? ? ? ? ? ? _ Hlo _| | |]; subst.
  inversion M4; subst. inversion M3 as [| | | | | | | | |  |? ? Hrest|]; subst.
  rewrite app_nil_l in Hrest.
  split; [|done].
  apply (f_equal length) in E. rewrite length_take, !length_app in E. lia.
Qed.

Lemma last_word_to_end (s : pystr) : forall prev n,
  n ≤ length s -> drop n s = [] \/ drop n s = [10%N] ->
  sub_scan false LAST_WORD [] prev s n = [].
Proof.
  induction s as [|d s IH]; intros prev n Hn Hd.
  - simpl in Hn. assert (n = 0) as -> by lia. by vm_compute.
  - destruct n as [|m].
    + simpl in Hd. destruct Hd as [Hd|Hd]; [done|].
      injection Hd as -> ->. by vm_compute.
    + rewrite sub_scan_skip. apply IH; [simpl in Hn; lia|done].
Qed.

(** Deleting the last word leaves a prefix of the string. *)
Lemma last_word_prefix (s : pystr) : forall prev,
  sub_scan false LAST_WORD [] prev s 0 `prefix_of` s.
Proof.
  induction s as [|c s IH]; intros prev.
  - assert (sub_scan false LAST_WORD [] prev [] 0 = []) as -> by (by vm_compute).
    apply prefix_nil.
  - rewrite sub_scan_cons_0.
    destruct (first_match (rmatch false LAST_WORD prev (c :: s))) as [[|n]|] eqn:E.
    + apply head_In, last_word_match in E. lia.
    + apply head_In, last_word_match in E as [Hn Hd].
      rewrite last_word_to_end; [apply prefix_nil|simpl in Hn; lia|done].
    + apply prefix_cons, IH.
Qed.

(** A string that starts with a word keeps its first character. *)
Lemma last_word_keeps_head prev c (y : pystr) :
  is_space c = false ->
  sub_scan false LAST_WORD [] prev (c :: y) 0 =
  c :: sub_scan false LAST_WORD [] (Some c) y 0.
Proof.
  intros Hc. rewrite sub_scan_cons_0.
  destruct (first_match (rmatch false LAST_WORD prev (c :: y))) as [n|] eqn:E; [|done].
  apply head_In in E. exfalso.
  change LAST_WORD with (Seq (plus CSpace) (seqs [star (CNot CSpace); Eos])) in E.
  change (rmatch false (Seq (plus CSpace) (seqs [star (CNot CSpace); Eos])) prev (c :: y))
    with (flat_map (fun n => map (Nat.add n)
                     (rmatch false (seqs [star (CNot CSpace); Eos])
                        (prev_at prev (c :: y) n) (drop n (c :: y))))
            (countdown (span_len (in_cset false CSpace) None (c :: y)) 1)) in E.
  rewrite span_len_cons in E. change (in_cset false CSpace c) with (is_space c) in E.
  rewrite Hc in E. by rewrite countdown_nil in E by lia.
Qed.

Lemma rstrip_keeps_head c (x : pystr) :
  is_space c = false -> exists y, rstrip (c :: x) = c :: y.
Proof.
  intros Hc. destruct (rstrip_prefix (c :: x)) as (post & E & B).
  destruct (rstrip (c :: x)) as [|d y].
  - simpl in E. subst post. inversion B; congruence.
  - injection E as <- _. by exists y.
Qed.

Lemma strip_keeps_head c (x : pystr) :
  is_space c = false -> exists y, strip (c :: x) = c :: y.
Proof.
  intros Hc. unfold strip. simpl lstrip. rewrite Hc. by apply rstrip_keeps_head.
Qed.

(** Cutting a text that starts with a word back to 30 characters and then
    to the last whole word leaves a non-empty prefix of the text. *)
Lemma cut_back (t : pystr) :
  t <> [] -> trimmed t ->
  let b := strip (re_sub false LAST_WORD [] (rstrip (take MAX_OFFER_LEN t))) in
  b <> [] /\ b `prefix_of` t.
Proof.
  intros Hne [Hh _]. destruct t as [|c t]; [done|]. simpl in Hh.
  change (take MAX_OFFER_LEN (c :: t)) with (c :: take 29 t).
  destruct (rstrip_keeps_head c (take 29 t) Hh) as [y Ey].
  pose proof (rstrip_prefix_of (c :: take 29 t)) as Hp1. rewrite Ey in *.
  pose proof (last_word_prefix (c :: y) None) as Hp2.
  unfold re_sub. rewrite (last_word_keeps_head None c y Hh) in *.
  set (z := sub_scan false LAST_WORD [] (Some c) y 0) in *.
  destruct (strip_keeps_head c z Hh) as [y' Ey'].
  cbv zeta. rewrite Ey'. split; [done|].
  rewrite <- Ey'. unfold strip. simpl lstrip. rewrite Hh.
  etransitivity; [apply rstrip_prefix_of|].
  etransitivity; [apply Hp2|]. etransitivity; [apply Hp1|].
  apply (prefix_take (c :: t) 30).
Qed.

End LastWordFacts.

(** ** More on the offer compressor *)

Section CompressFacts.
Context {U : UnicodeData}.

Lemma offer_loop_Forall (P : N -> Prop) (pats : list regex) (t : pystr) :
  Forall P t -> Forall P (offer_loop pats t).
Proof.
  revert t. induction pats as [|p pats IH]; intros t Ht; [done|].
  rewrite offer_loop_cons. apply IH. unfold offer_step.
  destruct (re_search true p t) as [m|]; [|done].
  unfold group0. by apply Forall_take, Forall_drop.
Qed.

Lemma compress_without_fallback (text : pystr) :
  compress_to_offer text =
    let t := strip_contact_and_cta text in
    if negb (truthy t) then []
    else
      let t := offer_loop OFFER_SHAPES t in
      let t := strip (re_sub false SPACES (py " ") t) in
      let t :=
        if MAX_OFFER_LEN <? length t
        then strip (re_sub false LAST_WORD [] (rstrip (take MAX_OFFER_LEN t)))
        else t in
      if contains true URL_REGEX t || contains false PHONE_REGEX t then [] else t.
Proof.
  unfold compress_to_offer. cbv zeta.
  destruct (negb (truthy (strip_contact_and_cta text))); [done|].
  set (t2 := strip (re_sub false SPACES (py " ") _)).
  destruct (Nat.ltb_spec MAX_OFFER_LEN (length t2)) as [Hlong|_]; [|done].
  assert (t2 <> []) as Hne by (intros E; rewrite E in Hlong; simpl in Hlong; lia).
  destruct (cut_back t2 Hne (strip_trimmed _)) as [Hb _].
  apply truthy_true in Hb. by rewrite Hb.
Qed.

(** The text after the offer-shape patterns and the collapse of white
    space, of which the result is a prefix. *)
Lemma compress_cases (text : pystr) :
  let t2 := strip (re_sub false SPACES (py " ")
                     (offer_loop OFFER_SHAPES (strip_contact_and_cta text))) in
  compress_to_offer text = [] \/
  (compress_to_offer text <> [] /\ compress_to_offer text `prefix_of` t2 /\
   trimmed (compress_to_offer text)).
Proof.
  rewrite compress_without_fallback. cbv zeta.
  destruct (negb (truthy (strip_contact_and_cta text))); [by left|].
  set (t2 := strip (re_sub false SPACES (py " ") _)).
  set (t3 := if MAX_OFFER_LEN <? length t2 then _ else t2).
  assert (t3 `prefix_of` t2 /\ trimmed t3) as [Hp Ht].
  { subst t3. destruct (Nat.ltb_spec MAX_OFFER_LEN (length t2)) as [Hlong|_].
    - assert (t2 <> []) as Hne by (intros E; rewrite E in Hlong; simpl in Hlong; lia).
      destruct (cut_back t2 Hne (strip_trimmed _)) as [_ Hb].
      split; [done|apply strip_trimmed].
    - split; [done|apply strip_trimmed]. }
  destruct (contains true URL_REGEX t3 || contains false PHONE_REGEX t3); [by left|].
  clearbody t3. destruct t3 as [|c t3]; [by left|]. right.
  split; [done|]. by split.
Qed.

Lemma Forall_prefix (P : N -> Prop) (l1 l2 : pystr) :
  l1 `prefix_of` l2 -> Forall P l2 -> Forall P l1.
Proof. intros [k ->] H. by apply Forall_app in H as [? _]. Qed.

End CompressFacts.

(** X8. The fallback of [compress_to_offer] (the sanitized text cut to 30
    characters, used when cutting back to a whole word leaves nothing) is
    never taken: a compressed text that is too long starts with a word,
    and cutting it back keeps at least the beginning of that word. *)
Theorem compress_to_offer_fallback_unreachable {U : UnicodeData} (text : pystr) :
  compress_to_offer text =
    let t := strip_contact_and_cta text in
    if negb (truthy t) then []
    else
      let t := offer_loop OFFER_SHAPES t in
      let t := strip (re_sub false SPACES (py " ") t) in
      let t :=
        if MAX_OFFER_LEN <? length t
        then strip (re_sub false LAST_WORD [] (rstrip (take MAX_OFFER_LEN t)))
        else t in
      if contains true URL_REGEX t || contains false PHONE_REGEX t then [] else t.
Proof. apply compress_without_fallback. Qed.

(** X9. The result of [compress_to_offer] is empty or a prefix of the
    text obtained from the sanitized input by the offer-shape patterns and
    the collapse of white space: the length limit only cuts at the end. *)
Theorem compress_to_offer_prefix {U : UnicodeData} (text : pystr) :
  compress_to_offer text = [] \/
  compress_to_offer text `prefix_of`
    strip (re_sub false SPACES (py " ")
             (offer_loop OFFER_SHAPES (strip_contact_and_cta text))).
Proof.
  destruct (compress_cases text) as [H|(_ & H & _)]; [by left|by right].
Qed.

(** X10. The result of [compress_to_offer] has no white space at either
    end and no two consecutive white space characters; its only white
    space character is the plain space, and it contains no pipe and no
    bullet. *)
Theorem compress_to_offer_character_profile {U : UnicodeData} (text : pystr) :
  trimmed (compress_to_offer text) /\
  has_space_run (compress_to_offer text) = false /\
  plain_spaces (compress_to_offer text) /\
  Forall (fun c => is_separator c = false) (compress_to_offer text).
Proof.
  destruct (compress_cases text) as [->|(_ & Hp & Ht)].
  { by repeat split; try constructor. }
  split; [done|]. split; [|split].
  - eapply no_run_prefix; [exact Hp|]. apply no_run_strip, collapse_no_run.
  - eapply Forall_prefix; [exact Hp|].
    apply Forall_strip, re_sub_Forall; [by repeat constructor|].
    apply offer_loop_Forall, sanitizer_plain_spaces.
  - eapply Forall_prefix; [exact Hp|].
    apply Forall_strip, re_sub_Forall; [by repeat constructor|].
    apply offer_loop_Forall, sanitizer_no_separator.
Qed.

(** ** More on the sentence matcher *)

Section FindMore.
Context {U : UnicodeData}.

(** The list of hits only grows, by sanitized sentences in the order of
    the text. *)
Lemma find_loop_grows rx max_items (sentences hits : list pystr) :
  exists l,
    find_loop rx max_items sentences hits = hits ++ l /\
    l `sublist_of`
      map (fun s => take 240 (strip_contact_and_cta (strip s))) sentences.
Proof.
  revert hits. induction sentences as [|s rest IH]; intros hits; simpl.
  { exists []. by rewrite app_nil_r. }
  destruct (length (strip s) <? 18).
  { destruct (IH hits) as (l & -> & Hl). exists l. split; [done|].
    by apply sublist_cons. }
  destruct (existsb _ rx); [destruct (truthy _)|].
  - destruct (max_items <=? Z.of_nat (length (hits ++ _)))%Z.
    + eexists [_]. split; [done|]. apply sublist_skip, sublist_nil_l.
    + destruct (IH (hits ++ [take 240 (strip_contact_and_cta (strip s))]))
        as (l & -> & Hl).
      eexists (_ :: l). rewrite <- app_assoc. split; [done|].
      by apply sublist_skip.
  - destruct (max_items <=? Z.of_nat (length hits))%Z.
    + exists []. rewrite app_nil_r. split; [done|apply sublist_nil_l].
    + destruct (IH hits) as (l & -> & Hl). exists l. split; [done|].
      by apply sublist_cons.
  - destruct (max_items <=? Z.of_nat (length hits))%Z.
    + exists []. rewrite app_nil_r. split; [done|apply sublist_nil_l].
    + destruct (IH hits) as (l & -> & Hl). exists l. split; [done|].
      by apply sublist_cons.
Qed.

Lemma find_loop_monotone rx (m m' : Z) (sentences hits : list pystr) :
  (m ≤ m')%Z ->
  find_loop rx m sentences hits `prefix_of` find_loop rx m' sentences hits.
Proof.
  intros Hm. revert hits. induction sentences as [|s rest IH]; intros hits; simpl.
  { done. }
  destruct (length (strip s) <? 18); [apply IH|].
  set (hits' := if existsb _ rx then _ else hits).
  destruct (Z.leb_spec m (Z.of_nat (length hits'))) as [Hstop|Hgo].
  - destruct (Z.leb_spec m' (Z.of_nat (length hits'))); [done|].
    destruct (find_loop_grows rx m' rest hits') as (l & -> & _).
    by exists l.
  - destruct (Z.leb_spec m' (Z.of_nat (length hits'))); [lia|]. apply IH.
Qed.

End FindMore.

(** X11. The entries returned by [find_sentences] follow the order of the
    sentences in the text: the result is a subsequence of the sentences
    of the text, each trimmed, sanitized and cut to 240 characters. *)
Theorem find_sentences_in_text_order {U : UnicodeData} (text : pystr)
    (patterns : list regex) (max_items : Z) :
  find_sentences text patterns max_items `sublist_of`
    map (fun s => take 240 (strip_contact_and_cta (strip s)))
        (re_split false SENTENCE_END text).
Proof.
  unfold find_sentences. destruct (negb (truthy text)); [apply sublist_nil_l|].
  by destruct (find_loop_grows patterns max_items
                 (re_split false SENTENCE_END text) []) as (l & -> & Hl).
Qed.

(** X12. Raising the cap only appends entries: the result for a cap is a
    prefix of the result for any larger cap. *)
Theorem find_sentences_monotone {U : UnicodeData} (text : pystr)
    (patterns : list regex) (m m' : Z) :
  (m ≤ m')%Z ->
  find_sentences text patterns m `prefix_of` find_sentences text patterns m'.
Proof.
  intros Hm. unfold find_sentences. destruct (negb (truthy text)); [done|].
  by apply find_loop_monotone.
Qed.

Lemma find_sentences_monotone_witness :
  @find_sentences ascii_tables
    (py "Short one. We have a special deal on every roof this month! Save money with us today.")
    OFFER_PATTERNS 1
  `prefix_of`
  @find_sentences ascii_tables
    (py "Short one. We have a special deal on every roof this month! Save money with us today.")
    OFFER_PATTERNS 2.
Proof.
  apply (@find_sentences_monotone ascii_tables
    (py "Short one. We have a special deal on every roof this month! Save money with us today.")
    OFFER_PATTERNS 1 2).
  lia.
Defined.

(** ** More on the crawler *)

Section CrawlMore.
Context {U : UnicodeData} {W : Web}.

(** What one turn of the loop changes. *)
Lemma visit_cases website path st log :
  let base := rstrip_char (ch "/") website ++ py "/" in
  let st' := fst (visit website path st log) in
  snd (visit website path st log) = log ++ option_list (urljoin base path) /\
  (title st <> [] -> title st' = title st) /\
  (meta_description st <> [] -> meta_description st' = meta_description st) /\
  (og_description st <> [] -> og_description st' = og_description st) /\
  (length (title st) ≤ 120 -> length (title st') ≤ 120) /\
  ((texts st' = texts st /\ pages_checked st' = pages_checked st) \/
   (exists url text, urljoin base path = Some url /\ 200 ≤ length text /\
      texts st' = texts st ++ [text] /\
      pages_checked st' = pages_checked st ++ [url])).
Proof.
  cbv zeta. unfold visit, http_get.
  destruct (urljoin _ path) as [url|]; simpl option_list;
    [|rewrite app_nil_r; by repeat split; auto].
  destruct (session_get log url) as [|status html]; [by repeat split; auto|].
  destruct (400 <=? status)%Z; [by repeat split; auto|].
  destruct (BeautifulSoup html) as [sp|]; [|by repeat split; auto].
  assert (title st <> [] ->
          (if negb (truthy (title st))
           then match soup_title_text sp with
                | Some txt => if truthy txt then take 120 (strip txt) else title st
                | None => title st
                end
           else title st) = title st) as Ht.
  { intros H. apply truthy_true in H. by rewrite H. }
  assert (length (title st) ≤ 120 ->
          length (if negb (truthy (title st))
           then match soup_title_text sp with
                | Some txt => if truthy txt then take 120 (strip txt) else title st
                | None => title st
                end
           else title st) ≤ 120) as Hl.
  { intros H. destruct (negb (truthy (title st))); [|done].
    destruct (soup_title_text sp) as [txt|]; [|done].
    destruct (truthy txt); [|done]. rewrite length_take. lia. }
  assert (meta_description st <> [] ->
          (if negb (truthy (meta_description st))
           then get_meta sp (Some (py "description")) None
           else meta_description st) = meta_description st) as Hm.
  { intros H. apply truthy_true in H. by rewrite H. }
  assert (og_description st <> [] ->
          (if negb (truthy (og_description st))
           then get_meta sp None (Some (py "og:description"))
           else og_description st) = og_description st) as Ho.
  { intros H. apply truthy_true in H. by rewrite H. }
  destruct (extract_visible_text html) as [text|]; [|by repeat split; auto].
  destruct (Nat.ltb_spec (length text) 200); [by repeat split; auto|].
  simpl. repeat split; auto. right. by exists url, text.
Qed.

(** The invariants of the crawl loop. *)
Lemma crawl_invariants website paths : forall st log,
  let base := rstrip_char (ch "/") website ++ py "/" in
  let st' := fst (crawl website paths st log) in
  let log' := snd (crawl website paths st log) in
  (exists l, log' = log ++ l /\ l `prefix_of` omap (urljoin base) paths) /\
  (title st <> [] -> title st' = title st) /\
  (meta_description st <> [] -> meta_description st' = meta_description st) /\
  (og_description st <> [] -> og_description st' = og_description st) /\
  (length (title st) ≤ 120 -> length (title st') ≤ 120) /\
  (length (texts st) = length (pages_checked st) ->
   length (texts st') = length (pages_checked st')) /\
  (pages_checked st `sublist_of` log -> pages_checked st' `sublist_of` log') /\
  (Forall (fun t => 200 ≤ length t) (texts st) ->
   Forall (fun t => 200 ≤ length t) (texts st')).
Proof.
  cbv zeta. induction paths as [|path rest IH]; intros st log.
  { simpl. split; [exists []; by rewrite app_nil_r|]. by repeat split. }
  rewrite crawl_cons.
  destruct (MAX_SITE_PAGES <=? length (pages_checked st)).
  { simpl. split; [exists []; rewrite app_nil_r; split; [done|apply prefix_nil]|].
    by repeat split. }
  destruct (visit_cases website path st log) as (Hlog & Ht & Hm & Ho & Hl & Hp).
  cbv zeta in *.
  set (st1 := fst (visit website path st log)) in *.
  set (log1 := snd (visit website path st log)) in *.
  destruct (IH st1 log1) as ((l & El & Hpre) & Ht' & Hm' & Ho' & Hl' & He' & Hs' & Hf').
  split; [|repeat split].
  - exists (option_list (urljoin (rstrip_char (ch "/") website ++ py "/") path) ++ l).
    rewrite El, Hlog, <- app_assoc. split; [done|].
    simpl omap. destruct (urljoin _ path); simpl; [by apply prefix_cons|done].
  - intros H. rewrite Ht'; rewrite (Ht H); done.
  - intros H. rewrite Hm'; rewrite (Hm H); done.
  - intros H. rewrite Ho'; rewrite (Ho H); done.
  - intros H. by apply Hl', Hl.
  - intros H. apply He'.
    destruct Hp as [[-> ->]|(url & text & _ & _ & -> & ->)]; [done|].
    rewrite !length_app. simpl. lia.
  - intros H. apply Hs'. rewrite Hlog.
    destruct Hp as [[_ ->]|(url & text & Eu & _ & _ & ->)].
    + by apply sublist_inserts_r.
    + rewrite Eu. simpl. by apply sublist_app.
  - intros H. apply Hf'.
    destruct Hp as [[-> _]|(url & text & _ & Hlen & -> & _)]; [done|].
    apply Forall_app. split; [done|]. by constructor.
Qed.

End CrawlMore.

Section BundleFacts.
Context {U : UnicodeData} {W : Web}.

Lemma compress_clean (s : pystr) :
  length (compress_to_offer s) ≤ 30 /\
  (compress_to_offer s <> [] ->
   ~ occurs true URL_REGEX (compress_to_offer s) /\
   ~ occurs false PHONE_REGEX (compress_to_offer s)).
Proof.
  rewrite compress_without_fallback. cbv zeta.
  destruct (negb (truthy (strip_contact_and_cta s))); [split; [simpl; lia|done]|].
  set (t2 := strip (re_sub false SPACES (py " ") _)).
  set (t3 := if MAX_OFFER_LEN <? length t2 then _ else t2).
  assert (length t3 ≤ 30) as Hlen.
  { subst t3. unfold MAX_OFFER_LEN.
    destruct (Nat.ltb_spec 30 (length t2)) as [H|H]; [|done].
    etransitivity; [apply strip_length|].
    etransitivity; [apply re_sub_delete_length|].
    etransitivity; [apply rstrip_length|]. rewrite length_take. lia. }
  destruct (contains true URL_REGEX t3 || contains false PHONE_REGEX t3) eqn:E.
  - split; [simpl; lia|done].
  - split; [done|]. intros _. apply orb_false_elim in E as [E1 E2].
    by rewrite <- !contains_false.
Qed.

Lemma offers_loop_cons s (rest acc : list pystr) :
  offers_loop (s :: rest) acc =
  let o := compress_to_offer s in
  let acc := if truthy o && negb (bool_decide (o ∈ acc)) then acc ++ [o] else acc in
  if 3 <=? length acc then acc else offers_loop rest acc.
Proof. done. Qed.

Lemma offers_loop_spec (cands : list pystr) : forall acc,
  NoDup acc -> Forall good_offer acc -> length acc < 3 ->
  NoDup (offers_loop cands acc) /\
  Forall good_offer (offers_loop cands acc) /\
  length (offers_loop cands acc) ≤ 3.
Proof.
  induction cands as [|s rest IH]; intros acc Hnd Hall Hlen.
  { simpl. split; [done|]. split; [done|lia]. }
  rewrite offers_loop_cons. cbv zeta.
  set (o := compress_to_offer s).
  set (acc' := if truthy o && negb (bool_decide (o ∈ acc)) then acc ++ [o] else acc).
  assert (NoDup acc' /\ Forall good_offer acc' /\ length acc' ≤ 3) as (Hnd' & Hall' & Hlen').
  { subst acc'. destruct (truthy o) eqn:Ho; simpl; [|split; [done|split; [done|lia]]].
    destruct (bool_decide (o ∈ acc)) eqn:Hin; simpl; [split; [done|split; [done|lia]]|].
    apply bool_decide_eq_false in Hin. apply truthy_true in Ho.
    split; [|split].
    - apply NoDup_app. split; [done|]. split; [|apply NoDup_singleton].
      intros x Hx Hx'. apply list_elem_of_singleton in Hx'. by subst.
    - apply Forall_app. split; [done|]. constructor; [|done].
      destruct (compress_clean s) as [Hl Hc]. fold o in Hl, Hc.
      split; [done|]. split; [done|]. by apply Hc.
    - rewrite length_app. simpl. lia. }
  destruct (Nat.leb_spec 3 (length acc')) as [?|Hroom].
  - split; [exact Hnd'|]. split; [exact Hall'|exact Hlen'].
  - apply IH; [exact Hnd'|exact Hall'|exact Hroom].
Qed.

Lemma offers_take_spec (cands : list pystr) :
  length (take 3 (offers_loop cands [])) ≤ 3 /\
  NoDup (take 3 (offers_loop cands [])) /\
  Forall good_offer (take 3 (offers_loop cands [])).
Proof.
  destruct (offers_loop_spec cands []) as (Hnd & Hall & _);
    [constructor|constructor|simpl; lia|].
  split; [rewrite length_take; lia|]. split; [|by apply Forall_take].
  exact (sublist_NoDup _ _ Hnd (sublist_take _ 3)).
Qed.

Lemma bundle_lookups st :
  bundle st !! "pagesChecked" = Some (VList (pages_checked st)) /\
  bundle st !! "title" =
    Some (VStr (if truthy (title st) then strip_contact_and_cta (title st) else [])) /\
  bundle st !! "metaDescription" =
    Some (VStr (if truthy (meta_description st)
                then take 300 (strip_contact_and_cta (meta_description st)) else [])) /\
  bundle st !! "ogDescription" =
    Some (VStr (if truthy (og_description st)
                then take 300 (strip_contact_and_cta (og_description st)) else [])) /\
  (exists raw, bundle st !! "financingOptions" = Some (VStr (display_text raw))) /\
  (exists raw, bundle st !! "warrantyText" = Some (VStr (display_text raw))) /\
  (exists t, bundle st !! "highlightsTagline"
             = Some (VStr (if truthy t then take 140 t else []))) /\
  (exists cands, bundle st !! "offers" = Some (VList (take 3 (offers_loop cands [])))) /\
  (exists cands, bundle st !! "highlights"
                 = Some (VList (take 3 (offers_loop cands [])))) /\
  (exists b, bundle st !! "insured" = Some (VBool b)) /\
  (exists b, bundle st !! "bonded" = Some (VBool b)) /\
  (exists b, bundle st !! "virtual" = Some (VBool b)).
Proof.
  unfold bundle. cbv zeta. cbn [list_to_map foldr uncurry fst snd].
  repeat split; try eexists;
    repeat (rewrite lookup_insert_ne by done); apply lookup_insert_eq.
Qed.

Lemma scrape_cases (website : pystr) :
  (blank website /\
   scrape_site_bundle website = ({[ "status" := VStr (py "missing") ]}, [])) \/
  (~ blank website /\
   exists st log,
     crawl (normalize_url website) CANDIDATE_PATHS crawl_init [] = (st, log) /\
     ((texts st = [] /\
       scrape_site_bundle website = ({[ "status" := VStr (py "unreachable") ]}, log)) \/
      (texts st <> [] /\ scrape_site_bundle website = (bundle st, log)))).
Proof.
  unfold scrape_site_bundle.
  destruct (normalize_url website) as [|c u] eqn:E.
  { left. split; [by apply normalize_url_nil|done]. }
  right. split.
  { intros H. apply normalize_url_nil in H. congruence. }
  change (negb (truthy (c :: u))) with false. cbv iota.
  destruct (crawl (c :: u) CANDIDATE_PATHS crawl_init []) as [st log].
  exists st, log. split; [done|].
  destruct (texts st) as [|t ts]; [left|right]; by split.
Qed.

End BundleFacts.

Lemma list_field_singleton (k k' : string) (v : pyval) :
  k <> k' -> list_field {[ k := v ]} k' = [].
Proof. intros H. unfold list_field. by rewrite lookup_singleton_ne. Qed.

Lemma str_field_singleton (k k' : string) (v : pyval) :
  k <> k' -> str_field {[ k := v ]} k' = [].
Proof. intros H. unfold str_field. by rewrite lookup_singleton_ne. Qed.

(** X13. The requests of a crawl are the URLs of the candidate paths, in
    the order of the list and each at most once: the requests issued form
    a prefix of the list of the joined candidate URLs (those for which
    [urljoin] succeeds).  Nothing else is ever requested. *)
Theorem scrape_requests_in_order {U : UnicodeData} {W : Web} (website : pystr) :
  snd (scrape_site_bundle website) `prefix_of`
    omap (urljoin (rstrip_char (ch "/") (normalize_url website) ++ py "/"))
         CANDIDATE_PATHS.
Proof.
  destruct (scrape_cases website) as [[_ ->]|(_ & st & log & Ec & Hs)].
  { apply prefix_nil. }
  destruct (crawl_invariants (normalize_url website) CANDIDATE_PATHS crawl_init [])
    as ((l & El & Hl) & _).
  rewrite Ec in El. simpl in El. subst l.
  by destruct Hs as [[_ ->]|[_ ->]].
Qed.

(** X14. The pages listed under pagesChecked are a subsequence of the
    requests issued (in the same order), there are at most four of them,
    and the list is not empty exactly when the status is ok. *)
Theorem checked_pages_of_bundle {U : UnicodeData} {W : Web} (website : pystr) :
  list_field (fst (scrape_site_bundle website)) "pagesChecked"
    `sublist_of` snd (scrape_site_bundle website) /\
  length (list_field (fst (scrape_site_bundle website)) "pagesChecked") ≤ 4 /\
  (list_field (fst (scrape_site_bundle website)) "pagesChecked" <> [] <->
   fst (scrape_site_bundle website) !! "status" = Some (VStr (py "ok"))).
Proof.
  destruct (scrape_cases website) as [[_ ->]|(_ & st & log & Ec & Hs)].
  { cbn [fst snd]. rewrite list_field_singleton by done.
    split; [apply sublist_nil_l|]. split; [simpl; lia|]. split; [done|].
    rewrite lookup_singleton_eq. intros H. vm_compute in H. discriminate H. }
  destruct (crawl_invariants (normalize_url website) CANDIDATE_PATHS crawl_init [])
    as (_ & _ & _ & _ & _ & He & Hsub & _).
  destruct (crawl_budget (normalize_url website) CANDIDATE_PATHS crawl_init [])
    as (Hfour & _); [simpl; lia|done|].
  rewrite Ec in He, Hsub, Hfour. simpl in He, Hsub, Hfour.
  destruct Hs as [[_ ->]|[Hne ->]]; cbn [fst snd].
  { rewrite list_field_singleton by done.
    split; [apply sublist_nil_l|]. split; [simpl; lia|]. split; [done|].
    rewrite lookup_singleton_eq. intros H. vm_compute in H. discriminate H. }
  destruct (bundle_lookups st) as (Hp & _).
  unfold list_field. rewrite Hp.
  split; [by apply Hsub|]. split; [exact Hfour|].
  split; [intros _; apply bundle_status|]. intros _ E.
  specialize (He eq_refl). rewrite E in He. simpl in He.
  destruct (texts st); [done|discriminate He].
Qed.

(** X15. First found wins: once the crawl holds a title, a meta
    description or an og description, no later page changes it. *)
Theorem crawl_keeps_metadata {U : UnicodeData} {W : Web}
    (website : pystr) (paths : list pystr) (st : crawl_state) (log : list pystr) :
  (title st <> [] -> title (fst (crawl website paths st log)) = title st) /\
  (meta_description st <> [] ->
   meta_description (fst (crawl website paths st log)) = meta_description st) /\
  (og_description st <> [] ->
   og_description (fst (crawl website paths st log)) = og_description st).
Proof.
  destruct (crawl_invariants website paths st log) as (_ & Ht & Hm & Ho & _).
  by repeat split.
Qed.

(** X16. The string fields of the returned dictionary keep their caps:
    the title has at most 120 characters, the two descriptions at most
    300, the financing and warranty texts at most 500 and the tagline at
    most 140. *)
Theorem bundle_field_caps {U : UnicodeData} {W : Web} (website : pystr) :
  length (str_field (fst (scrape_site_bundle website)) "title") ≤ 120 /\
  length (str_field (fst (scrape_site_bundle website)) "metaDescription") ≤ 300 /\
  length (str_field (fst (scrape_site_bundle website)) "ogDescription") ≤ 300 /\
  length (str_field (fst (scrape_site_bundle website)) "financingOptions") ≤ 500 /\
  length (str_field (fst (scrape_site_bundle website)) "warrantyText") ≤ 500 /\
  length (str_field (fst (scrape_site_bundle website)) "highlightsTagline") ≤ 140.
Proof.
  destruct (scrape_cases website) as [[_ ->]|(_ & st & log & Ec & Hs)].
  { cbn [fst snd]. rewrite !str_field_singleton by done. simpl. lia. }
  destruct (crawl_invariants (normalize_url website) CANDIDATE_PATHS crawl_init [])
    as (_ & _ & _ & _ & Hl & _).
  rewrite Ec in Hl. simpl in Hl. specialize (Hl (Nat.le_0_l _)).
  destruct Hs as [[_ ->]|[_ ->]]; cbn [fst snd].
  { rewrite !str_field_singleton by done. simpl. lia. }
  destruct (bundle_lookups st)
    as (_ & Ht & Hm & Ho & [rf Hf] & [rw Hw] & [t Hg] & _).
  unfold str_field. rewrite Ht, Hm, Ho, Hf, Hw, Hg.
  assert (forall raw, length (display_text raw) ≤ 500) as Hd.
  { intros raw. unfold display_text. rewrite length_take. lia. }
  repeat split; try apply Hd.
  - destruct (truthy (title st)); [|simpl; lia].
    etransitivity; [apply sanitizer_length|done].
  - destruct (truthy (meta_description st)); [|simpl; lia]. rewrite length_take. lia.
  - destruct (truthy (og_description st)); [|simpl; lia]. rewrite length_take. lia.
  - destruct (truthy t); [|simpl; lia]. rewrite length_take. lia.
Qed.

(** X17. The offers and the highlights of the returned dictionary are at
    most three, pairwise distinct, and each is not empty, has at most 30
    characters and contains no URL and no phone number. *)
Theorem bundle_offers_and_highlights {U : UnicodeData} {W : Web} (website : pystr) :
  (length (list_field (fst (scrape_site_bundle website)) "offers") ≤ 3 /\
   NoDup (list_field (fst (scrape_site_bundle website)) "offers") /\
   Forall good_offer (list_field (fst (scrape_site_bundle website)) "offers")) /\
  (length (list_field (fst (scrape_site_bundle website)) "highlights") ≤ 3 /\
   NoDup (list_field (fst (scrape_site_bundle website)) "highlights") /\
   Forall good_offer (list_field (fst (scrape_site_bundle website)) "highlights")).
Proof.
  destruct (scrape_cases website) as [[_ ->]|(_ & st & log & _ & [[_ ->]|[_ ->]])];
    cbn [fst snd].
  - rewrite !list_field_singleton by done.
    repeat split; simpl; try lia; constructor.
  - rewrite !list_field_singleton by done.
    repeat split; simpl; try lia; constructor.
  - destruct (bundle_lookups st)
      as (_ & _ & _ & _ & _ & _ & _ & [c1 H1] & [c2 H2] & _).
    unfold list_field. rewrite H1, H2. split; apply offers_take_spec.
Qed.

(** X18. Normalizing the website first, as the webhook does before it
    calls [scrape_site_bundle], changes nothing: the function gives the
    same dictionary and issues the same requests. *)
Theorem scrape_of_normalized {U : UnicodeData} {W : Web} (website : pystr) :
  scrape_site_bundle (normalize_url website) = scrape_site_bundle website.
Proof. unfold scrape_site_bundle. by rewrite normalize_url_fixed. Qed.

(** X19. The status is missing exactly when the website is blank (empty
    or white space only). *)
Theorem missing_status_iff_blank {U : UnicodeData} {W : Web} (website : pystr) :
  fst (scrape_site_bundle website) !! "status" = Some (VStr (py "missing")) <->
  blank website.
Proof.
  destruct (scrape_cases website) as [[Hb ->]|(Hnb & st & log & _ & [[_ ->]|[_ ->]])];
    cbn [fst snd].
  - by rewrite lookup_singleton_eq.
  - rewrite lookup_singleton_eq. split; [|done].
    intros H. vm_compute in H. discriminate H.
  - rewrite bundle_status. split; [|done].
    intros H. vm_compute in H. discriminate H.
Qed.

(** X20. When the page can be parsed, [extract_visible_text] returns a
    text without white space at either end, without two consecutive white
    space characters, in which every white space character is a plain
    space. *)
Theorem extract_visible_text_normalized {U : UnicodeData} {W : Web} (html : pystr) :
  match extract_visible_text html with
  | Some text =>
      trimmed text /\ has_space_run text = false /\ plain_spaces text
  | None => BeautifulSoup html = None
  end.
Proof.
  unfold extract_visible_text. destruct (BeautifulSoup html) as [sp|]; [|done].
  split; [apply strip_trimmed|]. split.
  - apply no_run_strip, collapse_no_run.
  - apply Forall_strip, collapse_plain_spaces.
Qed.

(** X21. [get_meta] returns a string without white space at either end,
    and the empty string when it is given neither a name nor a
    property. *)
Theorem get_meta_trimmed {U : UnicodeData} {W : Web} (sp : soup)
    (name prop : option pystr) :
  trimmed (get_meta sp name prop) /\ get_meta sp None None = [].
Proof.
  split; [|done]. unfold get_meta.
  assert (forall attr value c, meta_lookup sp attr value = Some c -> trimmed c) as H.
  { intros attr value c. unfold meta_lookup.
    destruct value as [v|]; [|done]. destruct (truthy v); [|done].
    destruct (soup_meta_content sp attr v) as [x|]; [|done].
    destruct (truthy x); [|done]. intros [= <-]. apply strip_trimmed. }
  destruct (meta_lookup sp "name" name) eqn:E1; [by eapply H|].
  destruct (meta_lookup sp "property" prop) eqn:E2; [by eapply H|done].
Qed.

(** ** The webhook: what is built from the site dictionary *)

Section WebhookFacts.
Context {U : UnicodeData} {W : Web}.

Lemma py_or_list (l : list pystr) : py_or (Some (VList l)) (VList []) = VList l.
Proof. by destruct l. Qed.

Lemma py_or_str (s : pystr) : py_or (Some (VStr s)) (VStr []) = VStr s.
Proof. by destruct s. Qed.

Lemma yes_no_str (s : pystr) :
  yes_no (Some (VStr s)) = VStr (if truthy s then py "yes" else py "no").
Proof. done. Qed.

Lemma item_or_empty_list (l : list pystr) i :
  item_or_empty (VList l) i = Some (VStr (default [] (l !! i))).
Proof.
  unfold item_or_empty. simpl. destruct (Nat.ltb_spec i (length l)) as [H|H].
  - destruct (lookup_lt_is_Some_2 l i H) as [x E]. by rewrite E.
  - by rewrite (lookup_ge_None_2 l i H).
Qed.

(** The entries built from a full bundle. *)
Lemma site_output_bundle st :
  exists (offers highlights : list pystr) (fin war tag : pystr),
    list_field (bundle st) "offers" = offers /\
    list_field (bundle st) "highlights" = highlights /\
    str_field (bundle st) "financingOptions" = fin /\
    str_field (bundle st) "warrantyText" = war /\
    str_field (bundle st) "highlightsTagline" = tag /\
    Forall good_offer offers /\ Forall good_offer highlights /\
    exists rest,
      site_output (bundle st) =
        Some (<[ "highlightsTagline" := VStr (take 140 tag) ]>
              (<[ "highlightPoint3" := VStr (default [] (highlights !! 2)) ]>
              (<[ "highlightPoint2" := VStr (default [] (highlights !! 1)) ]>
              (<[ "highlightPoint1" := VStr (default [] (highlights !! 0)) ]>
              (<[ "offersVirtualPresentations" := yes_no (bundle st !! "virtual") ]>
              (<[ "isBonded" := yes_no (bundle st !! "bonded") ]>
              (<[ "isInsured" := yes_no (bundle st !! "insured") ]>
              (<[ "highlightsTagline" := VStr (take 140 tag) ]>
              (<[ "waranty" := VStr (take 500 war) ]>
              (<[ "financingOptions" := VStr (take 500 fin) ]>
              (<[ "offersFinancing" := VStr (if truthy fin then py "yes" else py "no") ]>
              (<[ "specialOffer3" := VStr (default [] (offers !! 2)) ]>
              (<[ "specialOffer2" := VStr (default [] (offers !! 1)) ]>
              (<[ "specialOffer1" := VStr (default [] (offers !! 0)) ]> rest)))))))))))))).
Proof.
  destruct (bundle_lookups st)
    as (_ & _ & _ & _ & [rf Hf] & [rw Hw] & [t Hg] & [c1 H1] & [c2 H2] & _).
  destruct (offers_take_spec c1) as (_ & _ & Ho).
  destruct (offers_take_spec c2) as (_ & _ & Hh).
  eexists _, _, _, _, _.
  unfold list_field, str_field. rewrite H1, H2, Hf, Hw, Hg.
  split; [done|]. split; [done|]. split; [done|]. split; [done|]. split; [done|].
  split; [exact Ho|]. split; [exact Hh|].
  exists ∅. unfold site_output. cbv zeta. rewrite H1, H2, Hf, Hw, Hg.
  rewrite !py_or_list, !py_or_str, !item_or_empty_list.
  set (hl := take 3 (offers_loop c2 [])).
  assert ((if truthy_val (Some (VList hl))
           then py_item (py_or (Some (VList hl)) EMPTY3) 0
           else Some (VStr [])) = Some (VStr (default [] (hl !! 0)))) as ->.
  { by destruct hl. }
  cbn [mbind option_bind py_slice py_len].
  assert ((if 1 <? length hl then py_item (py_or (Some (VList hl)) EMPTY3) 1
           else Some (VStr [])) = Some (VStr (default [] (hl !! 1)))) as ->.
  { by destruct hl as [|a [|b hl]]. }
  assert ((if 2 <? length hl then py_item (py_or (Some (VList hl)) EMPTY3) 2
           else Some (VStr [])) = Some (VStr (default [] (hl !! 2)))) as ->.
  { by destruct hl as [|a [|b [|c hl]]]. }
  cbn [mbind option_bind foldl fst snd]. rewrite yes_no_str. reflexivity.
Qed.

End WebhookFacts.

Section WebhookSite.
Context {U : UnicodeData} {W : Web}.

Lemma webhook_site_cases (payload_website : option pystr) :
  fst (webhook_site payload_website) = ∅ \/
  fst (webhook_site payload_website) = {[ "status" := VStr (py "missing") ]} \/
  fst (webhook_site payload_website) = {[ "status" := VStr (py "unreachable") ]} \/
  exists st, fst (webhook_site payload_website) = bundle st.
Proof.
  unfold webhook_site. cbv zeta.
  destruct (truthy (normalize_url (default [] payload_website))); [|by left].
  right.
  destruct (scrape_cases (normalize_url (default [] payload_website)))
    as [[_ ->]|(_ & st & log & _ & [[_ ->]|[_ ->]])]; cbn [fst snd]; eauto.
Qed.

Lemma default_lookup_Forall (P : pystr -> Prop) (l : list pystr) i :
  Forall P l -> default [] (l !! i) = [] \/ P (default [] (l !! i)).
Proof.
  intros H. destruct (l !! i) as [x|] eqn:E; simpl; [|by left].
  right. eapply Forall_lookup_1; eauto.
Qed.

End WebhookSite.

(** X22. The entries of the webhook output that are read from the site
    dictionary can be built only when the site has status ok.  For a
    payload without website (empty dictionary) and for a site that is
    missing or unreachable, the last entry slices the missing
    highlightsTagline, which raises a TypeError that the handler does not
    catch. *)
Theorem webhook_output_needs_ok_site {U : UnicodeData} {W : Web}
    (payload_website : option pystr) :
  is_Some (site_output (fst (webhook_site payload_website))) <->
  fst (webhook_site payload_website) !! "status" = Some (VStr (py "ok")).
Proof.
  destruct (webhook_site_cases payload_website) as [->|[->|[->|[st ->]]]].
  - split; [intros [o H]; vm_compute in H; discriminate H|].
    rewrite lookup_empty. discriminate.
  - split; [intros [o H]; vm_compute in H; discriminate H|].
    rewrite lookup_singleton_eq. intros H. vm_compute in H. discriminate H.
  - split; [intros [o H]; vm_compute in H; discriminate H|].
    rewrite lookup_singleton_eq. intros H. vm_compute in H. discriminate H.
  - split; [intros _; apply bundle_status|]. intros _.
    destruct (site_output_bundle st) as (? & ? & ? & ? & ? & _ & _ & _ & _ & _ & _ & _ & rest & ->).
    by eexists.
Qed.

(** X23. When the site part of the webhook output is built, each of the
    fields specialOffer1 to specialOffer3 and highlightPoint1 to
    highlightPoint3 is empty or an accepted offer (at most 30 characters,
    no URL, no phone number), offersFinancing is yes exactly when the
    financing text of the site is not empty, and the tagline is that of
    the site. *)
Theorem webhook_offer_fields {U : UnicodeData} {W : Web}
    (payload_website : option pystr) :
  match site_output (fst (webhook_site payload_website)) with
  | Some o =>
      Forall (fun k => str_field o k = [] \/ good_offer (str_field o k))
        ["specialOffer1"; "specialOffer2"; "specialOffer3";
         "highlightPoint1"; "highlightPoint2"; "highlightPoint3"] /\
      (str_field o "offersFinancing" = py "yes" <->
       str_field (fst (webhook_site payload_website)) "financingOptions" <> []) /\
      str_field o "highlightsTagline" =
        str_field (fst (webhook_site payload_website)) "highlightsTagline"
  | None => True
  end.
Proof.
  destruct (webhook_site_cases payload_website) as [->|[->|[->|[st ->]]]];
    [by vm_compute|by vm_compute|by vm_compute|].
  destruct (site_output_bundle st)
    as (offers & highlights & fin & war & tag & _ & _ & Ef & _ & Et & Ho & Hh & rest & ->).
  rewrite Ef, Et. unfold str_field.
  split; [|split].
  - repeat (apply Forall_cons; split); [..|by apply Forall_nil];
      repeat (rewrite lookup_insert_ne by done); rewrite lookup_insert_eq;
      by apply default_lookup_Forall.
  - repeat (rewrite lookup_insert_ne by done). rewrite lookup_insert_eq.
    destruct fin; simpl; split; try done; intros H; vm_compute in H; discriminate H.
  - rewrite lookup_insert_eq. unfold str_field in Et.
    destruct (bundle_lookups st) as (_ & _ & _ & _ & _ & _ & [t Hg] & _).
    rewrite Hg in Et. subst tag.
    destruct (truthy t); [|done]. by rewrite take_take.
Qed.

(** ** The reviews: [format_top_reviews] *)

Section ReviewFacts.
Context {U : UnicodeData}.

Lemma insert_by_time_perm x (l : list review) : insert_by_time x l ≡ₚ x :: l.
Proof.
  induction l as [|y l IH]; simpl; [done|].
  destruct (time_key y <? time_key x)%Z; [done|].
  rewrite IH. apply Permutation_swap.
Qed.

Lemma insert_by_time_sorted x (l : list review) :
  StronglySorted not_older l -> StronglySorted not_older (insert_by_time x l).
Proof.
  induction 1 as [|y l Hs IH Hy]; simpl; [by repeat constructor|].
  destruct (Z.ltb_spec (time_key y) (time_key x)) as [Hlt|Hge].
  - constructor; [by constructor|]. constructor; [unfold not_older; lia|].
    eapply Forall_impl; [exact Hy|]. unfold not_older. intros z Hz. lia.
  - constructor; [done|]. rewrite insert_by_time_perm. by constructor.
Qed.

Lemma sort_loop_spec (l : list review) : forall acc,
  StronglySorted not_older acc ->
  StronglySorted not_older (foldl (fun acc x => insert_by_time x acc) acc l) /\
  foldl (fun acc x => insert_by_time x acc) acc l ≡ₚ acc ++ l.
Proof.
  induction l as [|x l IH]; intros acc Hacc; simpl.
  { by rewrite app_nil_r. }
  destruct (IH (insert_by_time x acc)) as [Hs Hp]; [by apply insert_by_time_sorted|].
  split; [done|]. rewrite Hp, insert_by_time_perm.
  by rewrite (Permutation_middle acc l x).
Qed.

Lemma sorted_recent_first_spec (l : list review) :
  StronglySorted not_older (sorted_recent_first l) /\ sorted_recent_first l ≡ₚ l.
Proof. apply (sort_loop_spec l []). constructor. Qed.

Lemma slice_to_take {A : Type} (l : list A) (n : Z) :
  exists k, slice_to l n = take k l /\ k ≤ length l /\
            ((0 ≤ n)%Z -> k = Z.to_nat n `min` length l).
Proof.
  unfold slice_to. destruct (Z.leb_spec 0 n) as [H|H].
  - exists (Z.to_nat n `min` length l). split; [|split; [lia|done]].
    destruct (Nat.le_ge_cases (Z.to_nat n) (length l)) as [Hle|Hge].
    + by rewrite Nat.min_l.
    + rewrite Nat.min_r by done. by rewrite !take_ge.
  - exists (length l - Z.to_nat (- n)). split; [done|]. split; lia.
Qed.

Lemma omap_length_le {A B : Type} (f : A -> option B) (l : list A) :
  length (omap f l) ≤ length l.
Proof.
  induction l as [|x l IH]; [done|].
  change (omap f (x :: l))
    with (match f x with Some y => y :: omap f l | None => omap f l end).
  destruct (f x); simpl; lia.
Qed.

Lemma review_text_profile (text : pystr) :
  length (review_text text) ≤ 300 /\
  has_space_run (review_text text) = false /\
  plain_spaces (review_text text) /\
  Forall (fun c => is_separator c = false) (review_text text).
Proof.
  unfold review_text. split; [rewrite length_take; lia|]. split; [|split].
  - eapply no_run_prefix; [apply prefix_take|apply collapse_no_run].
  - apply Forall_take, collapse_plain_spaces.
  - apply Forall_take, re_sub_Forall; [by repeat constructor|].
    apply sanitizer_no_separator.
Qed.

End ReviewFacts.

(** X24. A review without text, or with a blank text, gives no line.  Any
    other review gives the line: author, rating in parentheses with a
    star, colon, text; the text shown has at most 300 characters, no two
    consecutive white space characters, plain spaces only, and no pipe
    and no bullet. *)
Theorem review_line_shape {U : UnicodeData} (rv : review) :
  match review_line rv with
  | Some line =>
      clean_str (rv_text rv) <> [] /\
      exists shown,
        line = clean_str (rv_author_name rv) ++ py " (" ++ rv_rating rv
               ++ [STAR] ++ py "): " ++ shown /\
        length shown ≤ 300 /\ has_space_run shown = false /\
        plain_spaces shown /\ Forall (fun c => is_separator c = false) shown
  | None => clean_str (rv_text rv) = []
  end.
Proof.
  unfold review_line. cbv zeta.
  destruct (clean_str (rv_text rv)) as [|c t] eqn:E; [done|].
  change (negb (truthy (c :: t))) with false. cbv iota.
  split; [done|]. eexists. split; [reflexivity|]. apply review_text_profile.
Qed.


(** X26. [format_top_reviews] prints a line for at most [top_n] reviews
    when [top_n] is not negative, and never for more reviews than it is
    given. *)
Theorem review_lines_count {U : UnicodeData} (reviews : list review) (top_n : Z) :
  length (review_lines reviews top_n) ≤ length reviews /\
  ((0 ≤ top_n)%Z -> length (review_lines reviews top_n) ≤ Z.to_nat top_n).
Proof.
  destruct (sorted_recent_first_spec reviews) as [_ Hp].
  destruct (slice_to_take (sorted_recent_first reviews) top_n) as (k & Ek & Hk & Hn).
  unfold review_lines. rewrite Ek.
  pose proof (omap_length_le review_line (take k (sorted_recent_first reviews))) as H.
  rewrite length_take in H. rewrite (Permutation_length Hp) in *.
  split; [lia|]. intros H0. specialize (Hn H0). lia.
Qed.
